(** * nsp-splitter: a shallow embedding of [split_nsp.py]

    The script splits a large archive into numbered parts of bounded
    size.  This development embeds the size parser ([parse_size]), the
    part naming rule ([build_part_name]) and the chunked copy engine
    ([split_file]) together with the small part of the Python runtime and
    of the POSIX file API they rest on, and proves the properties the
    specification states about them.

    Conventions.
    - Python [int] is [Z]; [//] is [Z.div] (both round towards minus
      infinity) with the division by zero made explicit.
    - Python [str] is [string]; only ASCII text is modelled.
    - Python [float] is IEEE binary64, taken from [SpecFloat].
    - A raised exception is the [Raise] outcome of a [result].
    - The file system is a finite map from path names to nodes; a path
      name is the identity of a node (no links, no normalisation).
    - Text written by [print] is not part of the model. *)

From Stdlib Require Import ZArith Lia Ascii String List.
From Stdlib Require Import Decimal DecimalString DecimalN.
From Stdlib Require Import Floats.SpecFloat.
From stdpp Require Import base option list sorting gmap strings.

Local Open Scope Z_scope.

(** ** Exceptions and results *)

Inductive exn : Type :=
  | SplitError (msg : string)
  | ArgumentTypeError (msg : string)
  | ValueError
  | OverflowError
  | ZeroDivisionError
  | FileNotFoundError
  | FileExistsError
  | IsADirectoryError
  | NotADirectoryError
  | LoopFuel.

Inductive result (A : Type) : Type :=
  | Ok (a : A)
  | Raise (e : exn).
Arguments Ok {A} a.
Arguments Raise {A} e.

Definition is_ok {A} (r : result A) : bool :=
  match r with Ok _ => true | Raise _ => false end.

(** ** The part of [str] the script uses *)

Module PyStr.

Definition code (c : ascii) : Z := Z.of_nat (nat_of_ascii c).

(** [str.isspace] on the ASCII range. *)
Definition is_space (c : ascii) : bool :=
  let n := code c in
  ((9 <=? n) && (n <=? 13)) || ((28 <=? n) && (n <=? 32)).

Definition is_digit (c : ascii) : bool :=
  let n := code c in (48 <=? n) && (n <=? 57).

Definition digit_val (c : ascii) : option Z :=
  if is_digit c then Some (code c - 48) else None.

Definition lower_char (c : ascii) : ascii :=
  let n := code c in
  if (65 <=? n) && (n <=? 90) then ascii_of_nat (Z.to_nat (n + 32)) else c.

Fixpoint lower (s : string) : string :=
  match s with
  | EmptyString => EmptyString
  | String c r => String (lower_char c) (lower r)
  end.

Fixpoint lstrip (s : string) : string :=
  match s with
  | EmptyString => EmptyString
  | String c r => if is_space c then lstrip r else s
  end.

Fixpoint rstrip (s : string) : string :=
  match s with
  | EmptyString => EmptyString
  | String c r =>
      match rstrip r with
      | EmptyString => if is_space c then EmptyString else String c EmptyString
      | r' => String c r'
      end
  end.

Definition strip (s : string) : string := rstrip (lstrip s).

Fixpoint all_chars (p : ascii -> bool) (s : string) : bool :=
  match s with
  | EmptyString => true
  | String c r => p c && all_chars p r
  end.

Definition nonempty (s : string) : bool :=
  match s with EmptyString => false | String _ _ => true end.

(** [str.isdigit]: at least one character, all of them digits. *)
Definition isdigit (s : string) : bool := nonempty s && all_chars is_digit s.

Definition len (s : string) : Z := Z.of_nat (String.length s).

Definition endswith (s suffix : string) : bool :=
  let n := String.length s in
  let m := String.length suffix in
  (m <=? n)%nat && String.eqb (String.substring (n - m) m s) suffix.

(** [s[:-k]] for [k > 0]. *)
Definition drop_last (k : nat) (s : string) : string :=
  String.substring 0 (String.length s - k) s.

(** Value of a string of decimal digits, most significant first. *)
Fixpoint digits_value (acc : Z) (s : string) : Z :=
  match s with
  | EmptyString => acc
  | String c r => digits_value (10 * acc + (code c - 48)) r
  end.

(** CPython refuses to convert more than 4300 digits. *)
Definition int_max_str_digits : Z := 4300.

(** [int(s)] for a string on which [isdigit] holds. *)
Definition int_of_digits (s : string) : result Z :=
  if int_max_str_digits <? len s then Raise ValueError
  else Ok (digits_value 0 s).

(** [str(n)] for [n >= 0]. *)
Definition decimal (n : Z) : string :=
  NilZero.string_of_uint (N.to_uint (Z.to_N n)).

Fixpoint zeros (n : nat) : string :=
  match n with
  | O => EmptyString
  | S k => String "0" (zeros k)
  end.

(** [format(z, "0Wd")]: sign first, then zeros up to the width [W],
    then the digits. *)
Definition format_0d (width : nat) (z : Z) : string :=
  let sign := if z <? 0 then "-" else EmptyString in
  let digits := decimal (Z.abs z) in
  let pad := (width - String.length sign - String.length digits)%nat in
  sign +:+ zeros pad +:+ digits.

End PyStr.

(** ** [posixpath] *)

Module PosixPath.

Definition sep : ascii := "/"%char.
Definition extsep : ascii := "."%char.

(** Split at the last occurrence of [c]: [s = h ++ c ++ t] with no [c]
    in [t].  This is [s.rfind(c)] turned into the two slices around
    the index it returns. *)
Fixpoint rpartition (c : ascii) (s : string) : option (string * string) :=
  match s with
  | EmptyString => None
  | String a r =>
      match rpartition c r with
      | Some (h, t) => Some (String a h, t)
      | None => if Ascii.eqb a c then Some (EmptyString, r) else None
      end
  end.

Definition basename (p : string) : string :=
  match rpartition sep p with
  | Some (_, t) => t
  | None => p
  end.

Fixpoint rstrip_sep (s : string) : string :=
  match s with
  | EmptyString => EmptyString
  | String c r =>
      match rstrip_sep r with
      | EmptyString => if Ascii.eqb c sep then EmptyString else String c EmptyString
      | r' => String c r'
      end
  end.

(** [head = p[:i]]; a head that is not made of slashes only loses its
    trailing slashes. *)
Definition dirname (p : string) : string :=
  match rpartition sep p with
  | Some (h, _) =>
      let head := h +:+ String sep EmptyString in
      if PyStr.all_chars (Ascii.eqb sep) head then head else rstrip_sep head
  | None => EmptyString
  end.

Definition startswith_sep (s : string) : bool :=
  match s with String c _ => Ascii.eqb c sep | EmptyString => false end.

Definition endswith_sep (s : string) : bool :=
  PyStr.endswith s (String sep EmptyString).

(** [os.path.join] of two components. *)
Definition join (a b : string) : string :=
  if startswith_sep b then b
  else if negb (PyStr.nonempty a) || endswith_sep a then a +:+ b
  else a +:+ String sep b.

(** [splitext] on one path component: the extension starts at the last
    dot, unless only dots come before it. *)
Definition splitext_name (name : string) : string * string :=
  match rpartition extsep name with
  | Some (a, e) =>
      if PyStr.all_chars (Ascii.eqb extsep) a then (name, EmptyString)
      else (a, String extsep e)
  | None => (name, EmptyString)
  end.

Definition splitext (p : string) : string * string :=
  match rpartition sep p with
  | Some (h, t) =>
      let '(a, e) := splitext_name t in
      (h +:+ String sep a, e)
  | None => splitext_name p
  end.

End PosixPath.

(** ** Constants of the script *)

Definition DEFAULT_CHUNK_SIZE : Z := 4000000000.
Definition READ_BUFFER : Z := 8 * 1024 ^ 2.

(** ** [build_part_name] *)

Definition build_part_name (base_path : string) (index : Z) : string :=
  let '(stem, ext) := PosixPath.splitext base_path in
  let suffix := "." +:+ PyStr.format_0d 2 index in
  if PyStr.nonempty ext then stem +:+ suffix +:+ ext
  else base_path +:+ suffix.

(** ** The part of [float] the script uses *)

Module PyFloat.

Definition prec : Z := 53.
Definition emax : Z := 1024.

Definition float : Type := spec_float.

(** A decimal numeral [m * 10^e10] ([m >= 0]) rounded to the nearest
    double, ties to even.  A negative [e10] takes a quotient with
    more than 64 bits and a sticky bit for the remainder, so that the one
    rounding [binary_normalize] does is the correct one. *)
Definition of_decimal (neg : bool) (m e10 : Z) : float :=
  let sgn z := if neg then - z else z in
  if m =? 0 then S754_zero neg
  else if 0 <=? e10 then binary_normalize prec emax (sgn (m * 10 ^ e10)) 0 neg
  else
    let d := 10 ^ (- e10) in
    let s := Z.max 0 (66 + Z.log2 d - Z.log2 m) in
    let q := (m * 2 ^ s) / d in
    let sticky := if (m * 2 ^ s) mod d =? 0 then 0 else 1 in
    binary_normalize prec emax (sgn (2 * q + sticky)) (- (s + 1)) neg.

(** [float(n)] for an [int]. *)
Definition of_Z (n : Z) : result float :=
  match binary_normalize prec emax n 0 false with
  | S754_infinity _ => Raise OverflowError
  | f => Ok f
  end.

Definition mul (x y : float) : float := SFmul prec emax x y.
Definition leb (x y : float) : bool := SFleb x y.
Definition zero : float := S754_zero false.

(** [int(x)]: truncation towards zero. *)
Definition to_Z (x : float) : result Z :=
  match x with
  | S754_nan => Raise ValueError
  | S754_infinity _ => Raise OverflowError
  | S754_zero _ => Ok 0
  | S754_finite s m e =>
      let a := if 0 <=? e then Z.pos m * 2 ^ e else Z.pos m / 2 ^ (- e) in
      Ok (if s then - a else a)
  end.

(** digitpart ::= digit (["_"] digit)*, read greedily; [acc] is the
    value and [cnt] the number of digits read so far. *)
Fixpoint digits_go (acc cnt : Z) (s : string) : Z * Z * string :=
  match s with
  | EmptyString => (acc, cnt, s)
  | String c r =>
      match PyStr.digit_val c with
      | Some d => digits_go (10 * acc + d) (cnt + 1) r
      | None =>
          if Ascii.eqb c "_" then
            match r with
            | String c' r' =>
                match PyStr.digit_val c' with
                | Some d => digits_go (10 * acc + d) (cnt + 1) r'
                | None => (acc, cnt, s)
                end
            | EmptyString => (acc, cnt, s)
            end
          else (acc, cnt, s)
      end
  end.

Definition digitpart (acc : Z) (s : string) : option (Z * Z * string) :=
  match s with
  | String c r =>
      match PyStr.digit_val c with
      | Some d => Some (digits_go (10 * acc + d) 1 r)
      | None => None
      end
  | EmptyString => None
  end.

Definition sign (s : string) : bool * string :=
  match s with
  | String "-" r => (true, r)
  | String "+" r => (false, r)
  | _ => (false, s)
  end.

(** number ::= [digitpart] "." digitpart | digitpart ["."]; the result
    is the mantissa, the number of fraction digits and the rest. *)
Definition number (s : string) : option (Z * Z * string) :=
  match digitpart 0 s with
  | Some (i, _, String "." r) =>
      match digitpart i r with
      | Some (m, k, r') => Some (m, k, r')
      | None => Some (i, 0, r)
      end
  | Some (i, _, r) => Some (i, 0, r)
  | None =>
      match s with
      | String "." r => digitpart 0 r
      | _ => None
      end
  end.

(** exponent ::= ("e" | "E") [sign] digitpart *)
Definition exponent (s : string) : option Z :=
  match s with
  | EmptyString => Some 0
  | String c r =>
      if Ascii.eqb (PyStr.lower_char c) "e" then
        let '(neg, r1) := sign r in
        match digitpart 0 r1 with
        | Some (e, _, EmptyString) => Some (if neg then - e else e)
        | _ => None
        end
      else None
  end.

(** The white space [float] skips at both ends of an ASCII string: what
    C's [isspace] accepts, tab to carriage return and the space.  The
    separators 28 to 31, which [str.strip] takes off, stay and make the
    string invalid. *)
Definition is_space (c : ascii) : bool :=
  let n := PyStr.code c in
  ((9 <=? n) && (n <=? 13)) || (n =? 32).

Fixpoint lstrip (s : string) : string :=
  match s with
  | EmptyString => EmptyString
  | String c r => if is_space c then lstrip r else s
  end.

Fixpoint rstrip (s : string) : string :=
  match s with
  | EmptyString => EmptyString
  | String c r =>
      match rstrip r with
      | EmptyString => if is_space c then EmptyString else String c EmptyString
      | r' => String c r'
      end
  end.

(** [float(s)] for a string: [None] stands for the [ValueError]. *)
Definition of_string (s : string) : option float :=
  let '(neg, r) := sign (rstrip (lstrip s)) in
  let l := PyStr.lower r in
  if String.eqb l "inf" || String.eqb l "infinity" then Some (S754_infinity neg)
  else if String.eqb l "nan" then Some S754_nan
  else
    match number r with
    | Some (m, k, r') =>
        match exponent r' with
        | Some e => Some (of_decimal neg m (e - k))
        | None => None
        end
    | None => None
    end.

End PyFloat.

(** ** [parse_size] *)

(** The [suffixes] dictionary, in insertion order. *)
Definition suffixes : list (string * Z) :=
  [ ("kib", 1024); ("mib", 1024 ^ 2); ("gib", 1024 ^ 3); ("tib", 1024 ^ 4);
    ("kb", 1000); ("mb", 1000 ^ 2); ("gb", 1000 ^ 3); ("tb", 1000 ^ 4);
    ("k", 1024); ("m", 1024 ^ 2); ("g", 1024 ^ 3); ("t", 1024 ^ 4) ].

Fixpoint dict_get (d : list (string * Z)) (k : string) : option Z :=
  match d with
  | [] => None
  | (k', v) :: r => if String.eqb k' k then Some v else dict_get r k
  end.

(** [sorted(keys, key=len, reverse=True)]: a stable sort, longest first;
    keys of equal length keep their order. *)
Fixpoint insert_by_len (x : string) (l : list string) : list string :=
  match l with
  | [] => [x]
  | y :: r =>
      if (String.length y <? String.length x)%nat then x :: l
      else y :: insert_by_len x r
  end.

Definition sorted_by_len_desc (l : list string) : list string :=
  fold_left (fun acc x => insert_by_len x acc) l [].

(** The body of the [for suffix in ...] loop and the [raise] after it. *)
Fixpoint parse_size_suffix (stripped : string) (keys : list string) : result Z :=
  match keys with
  | [] => Raise (ArgumentTypeError
                   "size must be an integer byte count or end with K/M/G/T")
  | suffix :: rest =>
      if PyStr.endswith stripped suffix then
        match PyFloat.of_string (PyStr.drop_last (String.length suffix) stripped) with
        | None => Raise ValueError
        | Some number =>
            if PyFloat.leb number PyFloat.zero
            then Raise (ArgumentTypeError "size must be positive")
            else
              match dict_get suffixes suffix with
              | None => Raise ValueError
              | Some mult =>
                  match PyFloat.of_Z mult with
                  | Raise e => Raise e
                  | Ok fm => PyFloat.to_Z (PyFloat.mul number fm)
                  end
              end
        end
      else parse_size_suffix stripped rest
  end.

Definition parse_size (value : string) : result Z :=
  let stripped := PyStr.lower (PyStr.strip value) in
  if PyStr.isdigit stripped then PyStr.int_of_digits stripped
  else parse_size_suffix stripped (sorted_by_len_desc (map fst suffixes)).

(** ** The file system and the monad of the script's effects *)

Inductive node : Type :=
  | File (data : list Byte.byte)
  | Dir (st_size : Z).

(** The world outside the script: the file system, and for each read the
    script will issue the largest number of bytes the operating system
    is willing to hand over (an exhausted list means no limit).

    A path is the name of a node: the file system has no links, and a
    node is reached by one spelling only, the one the script uses
    ([/sd//game.nsp] and [/sd/game.nsp] would be two nodes).  What is
    said of a path below is said of that name. *)
Record world : Type := World {
  fs : gmap string node;
  short_reads : list Z
}.

Definition M (A : Type) : Type := world -> world * result A.

Definition ret {A} (a : A) : M A := fun w => (w, Ok a).
Definition raise {A} (e : exn) : M A := fun w => (w, Raise e).
Definition bind {A B} (m : M A) (k : A -> M B) : M B :=
  fun w =>
    match m w with
    | (w', Ok a) => k a w'
    | (w', Raise e) => (w', Raise e)
    end.

Notation "x <- m ;; k" := (bind m (fun x => k))
  (at level 100, m at next level, right associativity).
Notation "m ;;; k" := (bind m (fun _ => k))
  (at level 100, right associativity).

Module OS.

(** [os.path.exists] *)
Definition path_exists (p : string) : M bool :=
  fun w => (w, Ok (bool_decide (is_Some (fs w !! p)))).

(** [os.path.getsize] *)
Definition getsize (p : string) : M Z :=
  fun w =>
    match fs w !! p with
    | Some (File data) => (w, Ok (Z.of_nat (length data)))
    | Some (Dir sz) => (w, Ok sz)
    | None => (w, Raise FileNotFoundError)
    end.

Definition new_dir : node := Dir 4096.

(** [os.makedirs(name, exist_ok=True)]: the directory and its missing
    ancestors are created; a file in the way is an error.  Every
    ancestor is shorter than the path it is taken from, so the length
    of [name] is fuel enough ([makedirs_go_fuel]). *)
Fixpoint makedirs_go (fuel : nat) (name : string) (m : gmap string node)
  : result (gmap string node) :=
  if negb (PyStr.nonempty name) then Raise FileNotFoundError
  else
    match m !! name with
    | Some (Dir _) => Ok m
    | Some (File _) => Raise FileExistsError
    | None =>
        let head := PosixPath.dirname name in
        if negb (PyStr.nonempty head) || String.eqb head name
        then Ok (<[name := new_dir]> m)
        else
          match fuel with
          | O => Raise LoopFuel
          | S fuel' =>
              match makedirs_go fuel' head m with
              | Ok m' => Ok (<[name := new_dir]> m')
              | Raise FileExistsError => Raise NotADirectoryError
              | Raise e => Raise e
              end
          end
  end.

Definition makedirs (name : string) : M unit :=
  fun w =>
    match makedirs_go (String.length name) name (fs w) with
    | Ok m' => (World m' (short_reads w), Ok tt)
    | Raise e => (w, Raise e)
    end.

(** [open(p, "rb")] *)
Definition open_rb (p : string) : M unit :=
  fun w =>
    match fs w !! p with
    | Some (File _) => (w, Ok tt)
    | Some (Dir _) => (w, Raise IsADirectoryError)
    | None => (w, Raise FileNotFoundError)
    end.

(** [source.readinto(view)] with [n = len(view)], the handle being at
    offset [pos]: at most [n] bytes, at most what is left of the file,
    at most what the operating system hands over this time. *)
Definition readinto (p : string) (pos n : Z) : M (list Byte.byte) :=
  fun w =>
    let data := match fs w !! p with Some (File d) => d | _ => [] end in
    let '(k, rest) :=
      match short_reads w with
      | [] => (n, [])
      | r :: rs => (Z.min n r, rs)
      end in
    (World (fs w) rest, Ok (take (Z.to_nat k) (drop (Z.to_nat pos) data))).

(** [open(p, "wb")]: the file is created or truncated.  The parent
    directory is not looked up: the script opens parts only inside the
    directory [makedirs] has just made. *)
Definition open_wb (p : string) : M unit :=
  fun w =>
    match fs w !! p with
    | Some (Dir _) => (w, Raise IsADirectoryError)
    | _ => (World (<[p := File []]> (fs w)) (short_reads w), Ok tt)
    end.

(** [target.write(chunk)] on a file opened by [open_wb]. *)
Definition write (p : string) (chunk : list Byte.byte) : M unit :=
  fun w =>
    match fs w !! p with
    | Some (File d) =>
        (World (<[p := File (d ++ chunk)]> (fs w)) (short_reads w), Ok tt)
    | _ => (w, Raise FileNotFoundError)
    end.

End OS.

(** [a // b] *)
Definition floordiv (a b : Z) : M Z :=
  if b =? 0 then raise ZeroDivisionError else ret (a / b).

(** [range(n)] *)
Definition range (n : Z) : list Z := map Z.of_nat (seq 0 (Z.to_nat n)).

(** ** [split_file] *)

(** One state of the [while part_bytes < remaining] loop: the offset of
    the source handle and the running count. *)
Record copy_state : Type := CopyState {
  src_pos : Z;
  part_bytes : Z
}.

(** One turn of the loop body (lines 145 to 150). *)
Definition copy_step (file_path part_path : string) (remaining : Z)
    (st : copy_state) : M copy_state :=
  let to_read := Z.min READ_BUFFER (remaining - part_bytes st) in
  chunk <- OS.readinto file_path (src_pos st) to_read ;;
  let read := Z.of_nat (length chunk) in
  if read =? 0 then raise (SplitError "Unexpected end of file")
  else
    OS.write part_path chunk ;;;
    ret (CopyState (src_pos st + read) (part_bytes st + read)).

(** The loop.  Every turn that does not raise adds at least one byte, so
    [remaining - part_bytes] turns are enough ([copy_loop_no_fuel_error]);
    [LoopFuel] is the outcome no run has. *)
Fixpoint copy_loop (fuel : nat) (file_path part_path : string) (remaining : Z)
    (st : copy_state) : M copy_state :=
  if part_bytes st <? remaining then
    match fuel with
    | O => raise LoopFuel
    | S fuel' =>
        st' <- copy_step file_path part_path remaining st ;;
        copy_loop fuel' file_path part_path remaining st'
    end
  else ret st.

(** The body of [for index in range(total_parts)] (lines 135 to 151): the
    result is the new offset of the source handle and the part written. *)
Definition write_part (file_path output_base : string)
    (file_size chunk_size : Z) (overwrite : bool) (index pos : Z)
    : M (Z * string) :=
  let part_path := build_part_name output_base index in
  present <- OS.path_exists part_path ;;
  if present && negb overwrite then
    raise (SplitError ("Refusing to overwrite existing part: " +:+ part_path
                       +:+ ". Use --overwrite to replace."))
  else
    let remaining := Z.min chunk_size (file_size - pos) in
    OS.open_wb part_path ;;;
    st <- copy_loop (Z.to_nat remaining) file_path part_path remaining
            (CopyState pos 0) ;;
    ret (src_pos st, part_path).

Fixpoint write_parts (file_path output_base : string)
    (file_size chunk_size : Z) (overwrite : bool)
    (indices : list Z) (pos : Z) (parts : list string) : M (list string) :=
  match indices with
  | [] => ret parts
  | index :: rest =>
      res <-
        write_part file_path output_base file_size chunk_size overwrite index pos ;;
      write_parts file_path output_base file_size chunk_size overwrite
        rest (fst res) (parts ++ [snd res])
  end.

(** Lines 105 to 158.  What the function prints is left out.  The line
    printed at 120 to 123 formats the two sizes with
    [human_readable_size], which returns for every size below 2^1023 in
    absolute value: with a file size above the chunk size, that line
    can fail only for a chunk size below -2^1023. *)
Definition split_file (file_path : string) (output_dir : option string)
    (chunk_size : Z) (overwrite dry_run : bool) : M (list string) :=
  file_size <- OS.getsize file_path ;;
  if file_size <=? chunk_size then ret []
  else
    let output_dir := default (PosixPath.dirname file_path) output_dir in
    OS.makedirs output_dir ;;;
    let base_name := PosixPath.basename file_path in
    let output_base := PosixPath.join output_dir base_name in
    total_parts <- floordiv (file_size + chunk_size - 1) chunk_size ;;
    if dry_run then
      ret (map (build_part_name output_base) (range total_parts))
    else
      OS.open_rb file_path ;;;
      write_parts file_path output_base file_size chunk_size overwrite
        (range total_parts) 0 [].

(** ** The planning step of [main] (lines 238 to 246) *)

Definition intended_parts (file_path : string) (output : option string)
    (chunk_size : Z) : M (list string) :=
  size <- OS.getsize file_path ;;
  n <- floordiv (size + chunk_size - 1) chunk_size ;;
  let dir := match output with
             | Some d => if PyStr.nonempty d then d else PosixPath.dirname file_path
             | None => PosixPath.dirname file_path
             end in
  ret (map (build_part_name (PosixPath.join dir (PosixPath.basename file_path)))
         (range n)).

(** ** Vocabulary of the specification *)

(** [data[pos : pos + n]] *)
Definition slice (data : list Byte.byte) (pos n : Z) : list Byte.byte :=
  take (Z.to_nat n) (drop (Z.to_nat pos) data).

(** The content of a regular file. *)
Definition read_file (w : world) (p : string) : option (list Byte.byte) :=
  match fs w !! p with
  | Some (File d) => Some d
  | _ => None
  end.

(** The content of several files, in order. *)
Fixpoint read_files (w : world) (ps : list string) : option (list (list Byte.byte)) :=
  match ps with
  | [] => Some []
  | p :: r =>
      match read_file w p, read_files w r with
      | Some d, Some ds => Some (d :: ds)
      | _, _ => None
      end
  end.

(** The path the part names are built from: the source's name inside the
    output directory. *)
Definition output_base_of (file_path : string) (output_dir : option string) : string :=
  PosixPath.join (default (PosixPath.dirname file_path) output_dir)
    (PosixPath.basename file_path).

(** The paths [split_file] means to write, as its planning step lists
    them: none when the file fits in one chunk. *)
Definition planned_parts (file_path : string) (output_dir : option string)
    (file_size chunk_size : Z) : list string :=
  if file_size <=? chunk_size then []
  else map (build_part_name (output_base_of file_path output_dir))
         (range ((file_size + chunk_size - 1) / chunk_size)).

(** What was there before is still there, unchanged. *)
Definition preserves (w w' : world) : Prop :=
  forall p, is_Some (fs w !! p) -> fs w' !! p = fs w !! p.

(** Every read the environment still has in store hands over at least one
    byte. *)
Definition reads_positive (w : world) : Prop := Forall (fun r => 0 < r) (short_reads w).

Definition reads_positiveb (w : world) : bool := forallb (fun r => 0 <? r) (short_reads w).

(** No intended path is in the way: none is a directory, and none exists
    at all unless overwriting is allowed. *)
Definition path_clear (overwrite : bool) (w : world) (p : string) : bool :=
  match fs w !! p with
  | None => true
  | Some (File _) => overwrite
  | Some (Dir _) => false
  end.

(** A world that lets a split be: the output directory can be made, no
    planned path is in the way, and no read comes back empty. *)
Definition unhindered (file_path : string) (output_dir : option string)
    (file_size chunk_size : Z) (overwrite : bool) (w : world) : bool :=
  match OS.makedirs (default (PosixPath.dirname file_path) output_dir) w with
  | (w1, Ok _) =>
      forallb (path_clear overwrite w1)
        (planned_parts file_path output_dir file_size chunk_size)
      && reads_positiveb w
  | (_, Raise _) => false
  end.

(** The states the copy loop goes through from a given one. *)
Inductive copy_reach (file_path part_path : string) (remaining : Z)
  : world * copy_state -> world * copy_state -> Prop :=
  | copy_reach_here x : copy_reach file_path part_path remaining x x
  | copy_reach_step w st w1 st1 x :
      part_bytes st < remaining ->
      copy_step file_path part_path remaining st w = (w1, Ok st1) ->
      copy_reach file_path part_path remaining (w1, st1) x ->
      copy_reach file_path part_path remaining (w, st) x.

(** [lacks c s]: the character [c] does not occur in [s]. *)
Definition lacks (c : ascii) (s : string) : bool :=
  PyStr.all_chars (fun a => negb (Ascii.eqb a c)) s.

(** The index as the naming rule words it: two decimal digits. *)
Definition two_digits (index : Z) : string :=
  String (ascii_of_nat (Z.to_nat (48 + index / 10)))
    (String (ascii_of_nat (Z.to_nat (48 + index mod 10))) EmptyString).

(** ** Sample worlds *)

Definition sample_source : list Byte.byte :=
  [Byte.x01; Byte.x02; Byte.x03; Byte.x04; Byte.x05;
   Byte.x06; Byte.x07; Byte.x08; Byte.x09; Byte.x0a].

(** A card with one ten-byte archive; the first reads come back short. *)
Definition sample_world : world :=
  World {[ "/" := Dir 4096; "/sd" := Dir 4096;
           "/sd/game.nsp" := File sample_source ]} [3; 1; 7; 2].

(** The same card after an earlier split left its second part behind. *)
Definition sample_world_conflict : world :=
  World {[ "/" := Dir 4096; "/sd" := Dir 4096;
           "/sd/game.nsp" := File sample_source;
           "/sd/game.01.nsp" := File [Byte.xff] ]} [].

(** The same card with the first part just opened for writing. *)
Definition sample_world_open : world :=
  World {[ "/" := Dir 4096; "/sd" := Dir 4096;
           "/sd/game.nsp" := File sample_source;
           "/sd/game.00.nsp" := File [] ]} [3; 1; 7; 2].

(** ** [human_readable_size] *)

(** [n / d] rounded to the nearest integer, ties to even ([n >= 0],
    [d > 0]). *)
Definition div_half_even (n d : Z) : Z :=
  let q := n / d in
  match 2 * (n mod d) ?= d with
  | Lt => q
  | Gt => q + 1
  | Eq => if Z.even q then q else q + 1
  end.

(** [format(x, ".2f")]: the exact value of the double, rounded to two
    decimals, ties to even. *)
Definition format_2f (x : PyFloat.float) : string :=
  match x with
  | S754_nan => "nan"
  | S754_infinity s => if s then "-inf" else "inf"
  | S754_zero s => (if s then "-" else EmptyString) +:+ "0.00"
  | S754_finite s m e =>
      let h := if 0 <=? e then Z.pos m * 100 * 2 ^ e
               else div_half_even (Z.pos m * 100) (2 ^ (- e)) in
      (if s then "-" else EmptyString)
      +:+ PyStr.decimal (h / 100) +:+ "." +:+ PyStr.format_0d 2 (h mod 100)
  end.

Definition units : list string := ["B"; "KB"; "MB"; "GB"; "TB"].

Definition thousand : PyFloat.float :=
  binary_normalize PyFloat.prec PyFloat.emax 1000 0 false.

(** The [for unit in units] loop; [None] when the loop runs out, which
    sends the function to its last line. *)
Fixpoint human_readable_loop (value : PyFloat.float) (us : list string) : option string :=
  match us with
  | [] => None
  | unit :: rest =>
      if SFltb value thousand || String.eqb unit (List.last units EmptyString)
      then Some (format_2f value +:+ " " +:+ unit)
      else human_readable_loop (SFdiv PyFloat.prec PyFloat.emax value thousand) rest
  end.

Definition human_readable_size (size : Z) : result string :=
  match PyFloat.of_Z size with
  | Raise e => Raise e
  | Ok value =>
      match human_readable_loop value units with
      | Some text => Ok text
      | None => Ok (PyStr.format_0d 0 size +:+ " B")
      end
  end.

(** ** [iter_targets] *)

Definition VALID_EXTENSIONS : list string := [".nsp"; ".nsz"; ".xci"].

(** [os.path.splitext(p)[1].lower() in VALID_EXTENSIONS] *)
Definition valid_extension (p : string) : bool :=
  existsb (String.eqb (PyStr.lower (PosixPath.splitext p).2)) VALID_EXTENSIONS.

(** What [iter_targets] asks of the operating system beyond the file
    system map: [os.path.abspath], which depends on the working
    directory, and [os.walk], whose triples (root, dirs, files) come in
    the order the system lists them. *)
Record environment : Type := Environment {
  abspath : string -> string;
  walk : string -> list (string * list string * list string)
}.

(** [sorted(files)]: strings in code point order. *)
Definition sorted (names : list string) : list string := merge_sort String.le names.

(** The [for root, dirs, files in os.walk(path)] loop, with its [break]
    after the first triple unless [recursive]. *)
Fixpoint walk_targets (recursive : bool)
    (triples : list (string * list string * list string)) : list string :=
  match triples with
  | [] => []
  | (root, _, files) :: rest =>
      map (PosixPath.join root) (List.filter valid_extension (sorted files))
      ++ (if recursive then walk_targets recursive rest else [])
  end.

(** [list(iter_targets(paths, recursive))], the way [main] consumes the
    generator: the paths yielded, or the error that ends the
    iteration. *)
Fixpoint iter_targets (env : environment) (w : world) (paths : list string)
    (recursive : bool) : result (list string) :=
  match paths with
  | [] => Ok []
  | raw_path :: rest =>
      let path := abspath env raw_path in
      match fs w !! path with
      | None => Raise (SplitError ("Path not found: " +:+ raw_path))
      | Some (Dir _) =>
          match iter_targets env w rest recursive with
          | Ok found => Ok (walk_targets recursive (walk env path) ++ found)
          | Raise e => Raise e
          end
      | Some (File _) =>
          if valid_extension path then
            match iter_targets env w rest recursive with
            | Ok found => Ok (path :: found)
            | Raise e => Raise e
            end
          else Raise (SplitError ("Unsupported file type: " +:+ raw_path))
      end
  end.

(** ** The console, [confirm_overwrite] and [main] *)

(** What can leave [main] as an exception: one of the exceptions above, or
    the [EOFError] of [input]. *)
Inductive uncaught : Type :=
  | Std (e : exn)
  | EOFError.

Inductive outcome (A : Type) : Type :=
  | Done (a : A)
  | Uncaught (e : uncaught).
Arguments Done {A} a.
Arguments Uncaught {A} e.

(** The world of an interactive run: the file system side as before, and
    the lines still to come on standard input. *)
Record session : Type := Session {
  disk : world;
  stdin : list string
}.

(** A file system action, run inside a session. *)
Definition run {A} (m : M A) (s : session) : session * result A :=
  let '(w', r) := m (disk s) in (Session w' (stdin s), r).

Definition confirm_overwrite (parts : list string) (s : session)
    : session * outcome unit :=
  let existing :=
    List.filter (fun path => bool_decide (is_Some (fs (disk s) !! path))) parts in
  match existing with
  | [] => (s, Done tt)
  | _ :: _ =>
      match stdin s with
      | [] => (s, Uncaught EOFError)
      | line :: rest =>
          let response := PyStr.lower (PyStr.strip line) in
          let s' := Session (disk s) rest in
          if String.eqb response "y" || String.eqb response "yes"
          then (s', Done tt)
          else (s', Uncaught (Std (SplitError "Operation cancelled by user.")))
      end
  end.

(** The namespace [parse_args] returns. *)
Record args : Type := Args {
  args_targets : list string;
  args_output : option string;
  args_chunk_size : Z;
  args_recursive : bool;
  args_overwrite : bool;
  args_dry_run : bool
}.

Definition nonnil {A} (l : list A) : bool :=
  match l with [] => false | _ :: _ => true end.

(** The [for file_path in files] loop of [main] and the [return 0] after
    it (lines 236 to 269); the result is the exit status. *)
Fixpoint main_loop (a : args) (files : list string) (s : session)
    : session * outcome Z :=
  match files with
  | [] => (s, Done 0)
  | file_path :: rest =>
      match run (intended_parts file_path (args_output a) (args_chunk_size a)) s with
      | (s1, Raise e) => (s1, Uncaught (Std e))
      | (s1, Ok intended) =>
          let '(s2, confirmed) :=
            if negb (args_dry_run a) && nonnil intended && negb (args_overwrite a)
            then confirm_overwrite intended s1
            else (s1, Done tt) in
          match confirmed with
          | Uncaught e => (s2, Uncaught e)
          | Done _ =>
              match run (split_file file_path (args_output a) (args_chunk_size a)
                           (args_overwrite a) (args_dry_run a)) s2 with
              | (s3, Raise (SplitError _)) => (s3, Done 1)
              | (s3, Raise e) => (s3, Uncaught (Std e))
              | (s3, Ok _) => main_loop a rest s3
              end
          end
      end
  end.

(** [main] from line 213 on, [parse_args] having returned [a]. *)
Definition main (env : environment) (a : args) (s : session)
    : session * outcome Z :=
  let '(s1, targets) :=
    match args_targets a with
    | [] =>
        match stdin s with
        | [] => (s, None)
        | line :: rest =>
            let entered := PyStr.strip line in
            (Session (disk s) rest,
             if PyStr.nonempty entered then Some [entered] else None)
        end
    | given => (s, Some given)
    end in
  match targets with
  | None => (s1, Done 1)
  | Some targets =>
      match iter_targets env (disk s1) targets (args_recursive a) with
      | Raise (SplitError _) => (s1, Done 1)
      | Raise e => (s1, Uncaught (Std e))
      | Ok [] => (s1, Done 0)
      | Ok files => main_loop a files s1
      end
  end.

(** ** Checks used by the properties below *)

(** Whether [parse_size] reads the integer [n] followed by a suffix as
    [n] times the suffix's entry in the table. *)
Definition size_exact (n : Z) (entry : string * Z) : bool :=
  match parse_size (PyStr.decimal n +:+ entry.1) with
  | Ok v => v =? n * entry.2
  | Raise _ => false
  end.

(** Whether [human_readable_size] prints [k] times the unit number [j]
    as [k], two zero decimals and that unit. *)
Definition whole_unit_exact (k : Z) (j : nat) : bool :=
  match units !! j with
  | Some unit =>
      match human_readable_size (k * 1000 ^ Z.of_nat j) with
      | Ok text => String.eqb text (PyStr.decimal k +:+ ".00 " +:+ unit)
      | Raise _ => false
      end
  | None => true
  end.

(** Nothing that exists is removed or changes its kind: what was a
    regular file is one, what was a directory is one. *)
Definition keeps_kinds (w w' : world) : Prop :=
  forall p,
    match fs w !! p with
    | Some (File _) => exists data, fs w' !! p = Some (File data)
    | Some (Dir _) => exists size, fs w' !! p = Some (Dir size)
    | None => True
    end.

(** ** More sample worlds *)

(** A system whose working directory is the root and whose card holds,
    in the order it lists them, three entries in [/sd]. *)
Definition sample_environment : environment :=
  Environment (fun p => p)
    (fun top => [(top, ["saves"], ["zelda.xci"; "notes.txt"; "Game.NSP"]);
                 (PosixPath.join top "saves", [], ["old.nsz"])]).

Definition sample_args : args :=
  Args ["/sd/game.nsp"] None 4 false false false.

(** * Sample runs of the model *)

Example build_part_name_game :
  build_part_name "game.nsp" 0 = "game.00.nsp"
  /\ build_part_name "/sd/roms/game.v1.nsp" 7 = "/sd/roms/game.v1.07.nsp"
  /\ build_part_name "/sd/dir.d/game" 12 = "/sd/dir.d/game.12"
  /\ build_part_name ".hidden" 3 = ".hidden.03"
  /\ build_part_name "game.nsp" 100 = "game.100.nsp".
Proof. repeat split; vm_compute; reflexivity. Qed.

Example posixpath_samples :
  PosixPath.dirname "/sd/roms/game.nsp" = "/sd/roms"
  /\ PosixPath.dirname "game.nsp" = EmptyString
  /\ PosixPath.dirname "/game.nsp" = "/"
  /\ PosixPath.dirname "a//b" = "a"
  /\ PosixPath.basename "/sd/roms/game.nsp" = "game.nsp"
  /\ PosixPath.basename "roms/" = EmptyString
  /\ PosixPath.join "/out" "game.nsp" = "/out/game.nsp"
  /\ PosixPath.join "/out/" "game.nsp" = "/out/game.nsp"
  /\ PosixPath.join EmptyString "game.nsp" = "game.nsp"
  /\ PosixPath.splitext "a.b/c" = ("a.b/c", EmptyString)
  /\ PosixPath.splitext "a/..x" = ("a/..x", EmptyString)
  /\ PosixPath.splitext "a/.x.y" = ("a/.x", ".y").
Proof. repeat split; vm_compute; reflexivity. Qed.

Example parse_size_samples :
  parse_size "2G" = Ok 2147483648
  /\ parse_size "2GB" = Ok 2000000000
  /\ parse_size "512MiB" = Ok 536870912
  /\ parse_size "1024" = Ok 1024
  /\ parse_size " 1.5k " = Ok 1536
  /\ parse_size "0.1gb" = Ok 100000000
  /\ parse_size "1e3 kb" = Ok 1000000
  /\ parse_size "0" = Ok 0
  /\ parse_size "0.0001k" = Ok 0
  /\ parse_size "-5k" = Raise (ArgumentTypeError "size must be positive")
  /\ parse_size "0k" = Raise (ArgumentTypeError "size must be positive")
  /\ parse_size "nank" = Raise ValueError
  /\ parse_size "infk" = Raise OverflowError
  /\ parse_size "k" = Raise ValueError
  /\ parse_size "512Mi" = Raise (ArgumentTypeError "size must be an integer byte count or end with K/M/G/T")
  /\ parse_size "abc" = Raise (ArgumentTypeError "size must be an integer byte count or end with K/M/G/T").
Proof. repeat split; vm_compute; reflexivity. Qed.

Example float_samples :
  PyFloat.of_string "0.1" = Some (S754_finite false 7205759403792794 (-56))
  /\ PyFloat.of_string "1_0.5e-1" = Some (S754_finite false 4728779608739021 (-52))
  /\ PyFloat.of_string "9007199254740993" = Some (S754_finite false 4503599627370496 1)
  /\ PyFloat.of_string "1e400" = Some (S754_infinity false)
  /\ PyFloat.of_string "5e-324" = Some (S754_finite false 1 (-1074))
  /\ PyFloat.of_string "2e-324" = Some (S754_zero false)
  /\ PyFloat.of_string "3e-324" = Some (S754_finite false 1 (-1074))
  /\ PyFloat.of_string "1_" = None
  /\ PyFloat.of_string "." = None
  /\ PyFloat.of_string "5." = Some (S754_finite false 5629499534213120 (-50))
  /\ PyFloat.of_string "1e" = None
  /\ PyFloat.of_string EmptyString = None.
Proof. repeat split; vm_compute; reflexivity. Qed.

(** [str.strip] takes the separator 28 off the ends of the argument, but
    [float] does not take it off the end of the number. *)
Example float_keeps_separators :
  PyFloat.of_string (" 1.5" +:+ String "009" EmptyString) = PyFloat.of_string "1.5"
  /\ PyFloat.of_string ("1" +:+ String "028" EmptyString) = None
  /\ parse_size (String "028" "1k") = Ok 1024
  /\ parse_size ("1" +:+ String "028" "k") = Raise ValueError.
Proof. repeat split; vm_compute; reflexivity. Qed.

(** * Facts about the runtime model *)

(** ** Strings *)

Lemma append_cons a s t : String a s +:+ t = String a (s +:+ t).
Proof. reflexivity. Qed.

Lemma append_nil_l s : EmptyString +:+ s = s.
Proof. reflexivity. Qed.

Lemma append_nil_r s : s +:+ EmptyString = s.
Proof. induction s as [|a s IH]; [done|]. by rewrite append_cons, IH. Qed.

Lemma append_assoc s t u : (s +:+ t) +:+ u = s +:+ t +:+ u.
Proof. induction s as [|a s IH]; [done|]. by rewrite !append_cons, IH. Qed.

Lemma length_append s t :
  String.length (s +:+ t) = (String.length s + String.length t)%nat.
Proof.
  induction s as [|a s IH]; [done|].
  rewrite append_cons. simpl. rewrite IH. reflexivity.
Qed.

Lemma append_inj_r s t u : s +:+ u = t +:+ u -> s = t.
Proof.
  revert t. induction s as [|a s IH]; intros [|b t] H.
  - done.
  - apply (f_equal String.length) in H.
    rewrite !length_append in H. simpl in H. lia.
  - apply (f_equal String.length) in H.
    rewrite !length_append in H. simpl in H. lia.
  - rewrite !append_cons in H. injection H as -> H. f_equal. by apply IH.
Qed.

Lemma all_chars_app p s t :
  PyStr.all_chars p (s +:+ t) = PyStr.all_chars p s && PyStr.all_chars p t.
Proof.
  induction s as [|a s IH]; [done|].
  rewrite append_cons. simpl. rewrite IH. by rewrite andb_assoc.
Qed.

Lemma all_chars_impl (p q : ascii -> bool) s :
  (forall c, p c = true -> q c = true) ->
  PyStr.all_chars p s = true -> PyStr.all_chars q s = true.
Proof.
  intros Hpq. induction s as [|a s IH]; [done|]. simpl.
  intros [Ha Hs]%andb_prop. rewrite (Hpq _ Ha). simpl. by apply IH.
Qed.

Lemma lacks_app c s t : lacks c (s +:+ t) = lacks c s && lacks c t.
Proof. apply all_chars_app. Qed.

Lemma rpartition_None c s :
  PosixPath.rpartition c s = None <-> lacks c s = true.
Proof.
  unfold lacks. induction s as [|a s IH]; simpl; [done|].
  destruct (PosixPath.rpartition c s) as [[h t]|].
  - split; [done|]. intros [_ Hs]%andb_prop. by apply IH in Hs.
  - destruct (Ascii.eqb a c); simpl; [done|].
    split; [intros _; by apply IH | done].
Qed.

Lemma rpartition_Some c s h t :
  PosixPath.rpartition c s = Some (h, t) ->
  s = h +:+ String c t /\ lacks c t = true.
Proof.
  revert h. induction s as [|a s IH]; intros h; simpl; [done|].
  destruct (PosixPath.rpartition c s) as [[h' t']|] eqn:E.
  - intros [= <- <-]. destruct (IH h' eq_refl) as [-> Ht].
    by rewrite append_cons.
  - destruct (Ascii.eqb_spec a c) as [->|]; [|done].
    intros [= <- <-]. split; [done|]. by apply rpartition_None.
Qed.

Lemma rpartition_app c s t :
  lacks c t = true ->
  PosixPath.rpartition c (s +:+ t) =
    match PosixPath.rpartition c s with
    | Some (h, t') => Some (h, t' +:+ t)
    | None => None
    end.
Proof.
  intros Ht. induction s as [|a s IH].
  - by apply rpartition_None.
  - rewrite append_cons. simpl. rewrite IH.
    destruct (PosixPath.rpartition c s) as [[h t']|]; [done|].
    by destruct (Ascii.eqb a c).
Qed.

(** ** Paths *)

Lemma basename_app s t :
  lacks PosixPath.sep t = true ->
  PosixPath.basename (s +:+ t) = PosixPath.basename s +:+ t.
Proof.
  intros Ht. unfold PosixPath.basename. rewrite rpartition_app by done.
  by destruct (PosixPath.rpartition PosixPath.sep s) as [[h t']|].
Qed.

Lemma basename_lacks_sep p : lacks PosixPath.sep (PosixPath.basename p) = true.
Proof.
  unfold PosixPath.basename.
  destruct (PosixPath.rpartition PosixPath.sep p) as [[h t]|] eqn:E.
  - by apply rpartition_Some in E as [_ ?].
  - by apply rpartition_None.
Qed.

Lemma basename_join_length a b :
  lacks PosixPath.sep b = true ->
  (String.length b <= String.length (PosixPath.basename (PosixPath.join a b)))%nat.
Proof.
  intros Hb. unfold PosixPath.join.
  destruct (PosixPath.startswith_sep b).
  { unfold PosixPath.basename.
    apply rpartition_None in Hb. by rewrite Hb. }
  destruct (negb (PyStr.nonempty a) || PosixPath.endswith_sep a).
  - rewrite basename_app, length_append by done. lia.
  - change (String PosixPath.sep b) with (String PosixPath.sep EmptyString +:+ b).
    rewrite <-append_assoc, basename_app, length_append by done. lia.
Qed.

Lemma splitext_name_spec name a e :
  PosixPath.splitext_name name = (a, e) -> name = a +:+ e.
Proof.
  unfold PosixPath.splitext_name.
  destruct (PosixPath.rpartition PosixPath.extsep name) as [[h t]|] eqn:E.
  - apply rpartition_Some in E as [-> _].
    destruct (PyStr.all_chars _ h); intros [= <- <-]; [|done].
    by rewrite append_nil_r.
  - intros [= <- <-]. by rewrite append_nil_r.
Qed.

Lemma splitext_spec p stem ext :
  PosixPath.splitext p = (stem, ext) ->
  p = stem +:+ ext /\ lacks PosixPath.sep ext = true.
Proof.
  unfold PosixPath.splitext.
  destruct (PosixPath.rpartition PosixPath.sep p) as [[h t]|] eqn:E.
  - apply rpartition_Some in E as [-> Ht].
    destruct (PosixPath.splitext_name t) as [a e] eqn:Et.
    intros [= <- <-]. apply splitext_name_spec in Et as ->.
    rewrite lacks_app in Ht. apply andb_prop in Ht as [_ He].
    split; [|done]. by rewrite append_assoc, append_cons.
  - intros Hs. pose proof (splitext_name_spec _ _ _ Hs) as ->.
    apply rpartition_None in E. rewrite lacks_app in E.
    apply andb_prop in E as [_ He]. done.
Qed.

Lemma splitext_ext p stem ext :
  PosixPath.splitext p = (stem, ext) ->
  ext = EmptyString
  \/ exists e, ext = String "." e
              /\ lacks "." e = true /\ lacks "/" e = true.
Proof.
  intros Hs. pose proof (splitext_spec _ _ _ Hs) as [_ Hsep].
  assert (forall name a,
            PosixPath.splitext_name name = (a, ext) ->
            ext = EmptyString \/ exists e, ext = String "." e /\ lacks "." e = true) as Hname.
  { intros name a. unfold PosixPath.splitext_name.
    destruct (PosixPath.rpartition PosixPath.extsep name) as [[h t]|] eqn:E.
    - apply rpartition_Some in E as [_ Ht].
      destruct (PyStr.all_chars _ h); intros [= <- <-]; [by left|].
      right. by exists t.
    - intros [= <- <-]. by left. }
  assert (ext = EmptyString \/ exists e, ext = String "." e /\ lacks "." e = true) as [->|(e & -> & He)].
  { revert Hs. unfold PosixPath.splitext.
    destruct (PosixPath.rpartition PosixPath.sep p) as [[h t]|].
    - destruct (PosixPath.splitext_name t) as [a e] eqn:Et.
      intros [= <- <-]. by apply (Hname t a).
    - apply Hname. }
  - by left.
  - right. exists e. split; [done|]. split; [done|].
    unfold lacks in Hsep. simpl in Hsep. exact Hsep.
Qed.

(** ** Decimal rendering *)

Lemma string_of_uint_digits d :
  PyStr.all_chars PyStr.is_digit (NilEmpty.string_of_uint d) = true.
Proof. induction d; simpl; try done; by rewrite IHd. Qed.

Lemma to_uint_nonnil n : N.to_uint n <> Nil.
Proof. destruct n; [done|]. apply DecimalPos.Unsigned.to_uint_nonnil. Qed.

Lemma decimal_eq n :
  PyStr.decimal n = NilEmpty.string_of_uint (N.to_uint (Z.to_N n)).
Proof.
  unfold PyStr.decimal, NilZero.string_of_uint.
  pose proof (to_uint_nonnil (Z.to_N n)).
  by destruct (N.to_uint (Z.to_N n)).
Qed.

Lemma decimal_digits n : PyStr.all_chars PyStr.is_digit (PyStr.decimal n) = true.
Proof. rewrite decimal_eq. apply string_of_uint_digits. Qed.

Lemma zeros_digits k : PyStr.all_chars PyStr.is_digit (PyStr.zeros k) = true.
Proof. induction k; [done|]. simpl. by rewrite IHk. Qed.

Lemma format_0d_nonneg w z :
  0 <= z ->
  PyStr.format_0d w z =
    PyStr.zeros (w - String.length (PyStr.decimal z)) +:+ PyStr.decimal z.
Proof.
  intros Hz. unfold PyStr.format_0d.
  destruct (Z.ltb_spec z 0) as [|_]; [lia|].
  rewrite Z.abs_eq by done. simpl. by rewrite Nat.sub_0_r.
Qed.

Lemma digits_value_uint_acc d : forall acc,
  PyStr.digits_value (Z.pos acc) (NilEmpty.string_of_uint d)
  = Z.pos (Pos.of_uint_acc d acc).
Proof.
  induction d; intros acc; simpl; try done;
    match goal with
    | |- PyStr.digits_value ?z _ = _ =>
        let p := fresh "p" in
        evar (p : positive); replace z with (Z.pos p);
        [subst p; by rewrite IHd | subst p; vm_compute PyStr.code; lia]
    end.
Qed.

Lemma digits_value_uint d :
  PyStr.digits_value 0 (NilEmpty.string_of_uint d) = Z.of_N (Pos.of_uint d).
Proof.
  induction d; simpl; try done;
    match goal with
    | |- PyStr.digits_value ?z _ = _ =>
        let v := eval vm_compute in z in change z with v
    end;
    first [exact IHd | apply digits_value_uint_acc].
Qed.

Lemma digits_value_decimal n : 0 <= n -> PyStr.digits_value 0 (PyStr.decimal n) = n.
Proof.
  intros Hn. rewrite decimal_eq, digits_value_uint.
  change (Pos.of_uint ?d) with (N.of_uint d).
  rewrite DecimalN.Unsigned.of_to. lia.
Qed.

Lemma digits_value_zeros k s :
  PyStr.digits_value 0 (PyStr.zeros k +:+ s) = PyStr.digits_value 0 s.
Proof. induction k as [|k IH]; [done|]. simpl. exact IH. Qed.

(** The index can be read back from its rendering. *)
Lemma digits_value_format w z :
  0 <= z -> PyStr.digits_value 0 (PyStr.format_0d w z) = z.
Proof.
  intros Hz. rewrite format_0d_nonneg by done.
  by rewrite digits_value_zeros, digits_value_decimal.
Qed.

Lemma format_0d_length w z : (w <= String.length (PyStr.format_0d w z))%nat.
Proof.
  unfold PyStr.format_0d. rewrite !length_append.
  assert (forall k, String.length (PyStr.zeros k) = k) as ->.
  { induction k; simpl; congruence. }
  lia.
Qed.

Lemma format_0d_digits w z :
  0 <= z -> PyStr.all_chars PyStr.is_digit (PyStr.format_0d w z) = true.
Proof.
  intros Hz. rewrite format_0d_nonneg by done.
  by rewrite all_chars_app, zeros_digits, decimal_digits.
Qed.

Lemma format_0d_inj w a b :
  0 <= a -> 0 <= b -> PyStr.format_0d w a = PyStr.format_0d w b -> a = b.
Proof.
  intros Ha Hb H%(f_equal (PyStr.digits_value 0)).
  by rewrite !digits_value_format in H.
Qed.

Lemma digit_not_sep c : PyStr.is_digit c = true -> negb (Ascii.eqb c PosixPath.sep) = true.
Proof.
  destruct (Ascii.eqb_spec c PosixPath.sep) as [->|]; [|done].
  by vm_compute.
Qed.

Lemma format_0d_lacks_sep w z : lacks PosixPath.sep (PyStr.format_0d w z) = true.
Proof.
  unfold PyStr.format_0d. rewrite !lacks_app.
  assert (forall s, PyStr.all_chars PyStr.is_digit s = true ->
                    lacks PosixPath.sep s = true) as Hd.
  { intros s. apply all_chars_impl, digit_not_sep. }
  rewrite (Hd _ (zeros_digits _)), (Hd _ (decimal_digits _)).
  by destruct (z <? 0).
Qed.

Lemma range_seq n : range n = map Z.of_nat (seq 0 (Z.to_nat n)).
Proof. done. Qed.

Lemma elem_of_range n i : i ∈ range n <-> 0 <= i < n.
Proof.
  unfold range. rewrite list_elem_of_fmap. split.
  - intros (k & -> & Hk). apply list_elem_of_In, in_seq in Hk. lia.
  - intros Hi. exists (Z.to_nat i). split; [lia|].
    apply list_elem_of_In, in_seq. lia.
Qed.

Lemma digits_value_bound s : forall acc,
  0 <= acc ->
  PyStr.all_chars PyStr.is_digit s = true ->
  PyStr.digits_value acc s < (acc + 1) * 10 ^ Z.of_nat (String.length s).
Proof.
  induction s as [|c s IH]; intros acc Hacc; simpl String.length; simpl.
  - intros _. lia.
  - intros [Hc Hs]%andb_prop. unfold PyStr.is_digit in Hc.
    apply andb_prop in Hc as [Hlo%Z.leb_le Hhi%Z.leb_le].
    specialize (IH (10 * acc + (PyStr.code c - 48)) ltac:(lia) Hs).
    rewrite Nat2Z.inj_succ, Z.pow_succ_r by lia.
    assert (0 < 10 ^ Z.of_nat (String.length s)) by (apply Z.pow_pos_nonneg; lia).
    nia.
Qed.

(** From 10 on nothing is padded: the rendering is the number itself,
    with all its digits. *)
Lemma format_wide index :
  10 <= index -> PyStr.format_0d 2 index = PyStr.decimal index.
Proof.
  intros Hi. rewrite format_0d_nonneg by lia.
  pose proof (digits_value_bound (PyStr.decimal index) 0 ltac:(lia)
                (decimal_digits index)) as Hb.
  rewrite digits_value_decimal in Hb by lia.
  destruct (String.length (PyStr.decimal index)) as [|[|n]] eqn:Hlen;
    [simpl in Hb; lia..|].
  reflexivity.
Qed.

(** Below 10 one zero is put in front. *)
Lemma format_narrow index :
  0 <= index < 10 -> PyStr.format_0d 2 index = String "0" (PyStr.decimal index).
Proof.
  intros Hi.
  assert (forallb (fun i => String.eqb (PyStr.format_0d 2 i) (String "0" (PyStr.decimal i)))
            (range 10) = true) as Hall by (vm_compute; reflexivity).
  rewrite forallb_forall in Hall.
  apply String.eqb_eq, Hall, list_elem_of_In, elem_of_range. lia.
Qed.

(** Below 100 the rendering is the two digits of the index. *)
Lemma format_two_digits index :
  0 <= index < 100 -> PyStr.format_0d 2 index = two_digits index.
Proof.
  intros Hi.
  assert (forallb (fun i => String.eqb (PyStr.format_0d 2 i) (two_digits i))
            (range 100) = true) as Hall by (vm_compute; reflexivity).
  rewrite forallb_forall in Hall.
  apply String.eqb_eq, Hall, list_elem_of_In, elem_of_range. lia.
Qed.

(** ** Part names *)

Lemma build_part_name_unfold p i :
  build_part_name p i =
    (PosixPath.splitext p).1 +:+ ("." +:+ PyStr.format_0d 2 i +:+ (PosixPath.splitext p).2).
Proof.
  unfold build_part_name.
  destruct (PosixPath.splitext p) as [stem ext] eqn:E. simpl.
  apply splitext_spec in E as [-> _].
  destruct ext as [|c ext]; simpl.
  - by rewrite !append_nil_r.
  - by rewrite !append_assoc.
Qed.

(** Two indices give two names. *)
Lemma build_part_name_inj p i j :
  0 <= i -> 0 <= j -> build_part_name p i = build_part_name p j -> i = j.
Proof.
  intros Hi Hj. rewrite !build_part_name_unfold.
  intros H%(inj (String.app _)). rewrite !append_cons in H.
  injection H as H. rewrite !append_nil_l in H. apply append_inj_r in H.
  by apply (format_0d_inj 2).
Qed.

(** No part is written over the file that is being split: the last
    component of a part name is longer than that of the source. *)
Lemma build_part_name_ne_source file_path out i :
  build_part_name (PosixPath.join out (PosixPath.basename file_path)) i <> file_path.
Proof.
  set (base := PosixPath.join out (PosixPath.basename file_path)).
  intros H%(f_equal (fun p => String.length (PosixPath.basename p))).
  rewrite build_part_name_unfold in H.
  destruct (PosixPath.splitext base) as [stem ext] eqn:E. simpl in H.
  apply splitext_spec in E as [Hbase Hext].
  pose proof (basename_join_length out _ (basename_lacks_sep file_path)) as Hlen.
  fold base in Hlen. rewrite Hbase in Hlen.
  rewrite basename_app in H.
  2:{ rewrite !lacks_app, format_0d_lacks_sep, Hext. done. }
  rewrite basename_app in Hlen by done.
  rewrite !length_append in H. rewrite length_append in Hlen.
  simpl in H. lia.
Qed.

(** ** Slices *)

Lemma take_length_take {A} k (l : list A) : take (length (take k l)) l = take k l.
Proof.
  rewrite length_take. destruct (Nat.min_spec k (length l)) as [[_ ->]|[? ->]]; [done|].
  by rewrite !take_ge by lia.
Qed.

Lemma slice_app data pos n1 n2 :
  0 <= pos -> 0 <= n1 -> 0 <= n2 ->
  slice data pos n1 ++ slice data (pos + n1) n2 = slice data pos (n1 + n2).
Proof.
  intros. unfold slice. rewrite !Z2Nat.inj_add by done.
  rewrite <-drop_drop. apply take_take_drop.
Qed.

Lemma slice_length data pos n :
  0 <= pos -> 0 <= n -> pos + n <= Z.of_nat (length data) ->
  Z.of_nat (length (slice data pos n)) = n.
Proof. intros. unfold slice. rewrite length_take, length_drop. lia. Qed.

Lemma slice_0 data pos : slice data pos 0 = [].
Proof. done. Qed.

(** ** The copy loop *)

Lemma reads_positiveb_spec w : reads_positiveb w = true <-> reads_positive w.
Proof.
  unfold reads_positiveb, reads_positive. rewrite forallb_forall, Forall_forall.
  split; intros H x Hx.
  - apply Z.ltb_lt, H. by apply list_elem_of_In.
  - apply Z.ltb_lt, H. by apply list_elem_of_In.
Qed.

Section copy_loop.
Variables (file_path part_path : string) (data : list Byte.byte).
Hypothesis part_ne_source : part_path <> file_path.

(** One turn of the loop, spelled out: some [m] bytes arrive; none is
    the end of the file; otherwise they are appended to the part. *)
Lemma copy_step_spec remaining pos pb w written :
  fs w !! file_path = Some (File data) ->
  fs w !! part_path = Some (File written) ->
  0 <= pos -> pb < remaining ->
  exists m rest,
    0 <= m <= remaining - pb
    /\ m <= READ_BUFFER
    /\ (reads_positive w -> reads_positive (World (fs w) rest))
    /\ (reads_positive w -> pos < Z.of_nat (length data) -> 0 < m)
    /\ copy_step file_path part_path remaining (CopyState pos pb) w =
         if m =? 0
         then (World (fs w) rest, Raise (SplitError "Unexpected end of file"))
         else (World (<[part_path := File (written ++ slice data pos m)]> (fs w)) rest,
               Ok (CopyState (pos + m) (pb + m))).
Proof.
  intros Hsrc Hpart Hpos Hpb.
  unfold copy_step, bind, OS.readinto. rewrite Hsrc. simpl.
  set (to_read := Z.min READ_BUFFER (remaining - pb)).
  assert (0 < to_read) as Hto by (unfold to_read, READ_BUFFER; lia).
  assert (to_read <= remaining - pb) as Hto' by (unfold to_read; lia).
  assert (to_read <= READ_BUFFER) as Hto'' by (unfold to_read; lia).
  destruct (short_reads w) as [|r rs] eqn:Hr.
  - set (chunk := take (Z.to_nat to_read) (drop (Z.to_nat pos) data)).
    exists (Z.of_nat (length chunk)), [].
    assert (Z.of_nat (length chunk) <= to_read) as Hlen.
    { unfold chunk. rewrite length_take. lia. }
    split; [lia|]. split; [lia|]. split; [by constructor|]. split.
    { intros _ Hlt. unfold chunk. rewrite length_take, length_drop. lia. }
    destruct (Z.eqb_spec (Z.of_nat (length chunk)) 0) as [|Hne]; [done|].
    unfold OS.write. simpl. rewrite Hpart. simpl.
    unfold slice. rewrite Nat2Z.id. subst chunk.
    by rewrite take_length_take.
  - set (chunk := take (Z.to_nat (Z.min to_read r)) (drop (Z.to_nat pos) data)).
    exists (Z.of_nat (length chunk)), rs.
    assert (Z.of_nat (length chunk) <= to_read) as Hlen.
    { unfold chunk. rewrite length_take. lia. }
    split; [lia|]. split; [lia|]. split.
    { unfold reads_positive. rewrite Hr. simpl. by inversion 1. }
    split.
    { unfold reads_positive. rewrite Hr. inversion 1; subst. intros Hlt.
      unfold chunk. rewrite length_take, length_drop. lia. }
    destruct (Z.eqb_spec (Z.of_nat (length chunk)) 0) as [|Hne]; [done|].
    unfold OS.write. simpl. rewrite Hpart. simpl.
    unfold slice. rewrite Nat2Z.id. subst chunk.
    by rewrite take_length_take.
Qed.

(** The loop, from any state in which the part holds [written] and the
    count is within [remaining]: the bytes added to the part are the
    next [n] bytes of the source; a normal end means [n] is all that
    was missing; the only irregular end is the end of the file, unless
    the fuel was too short. *)
Lemma copy_loop_spec remaining fuel : forall pos pb w written w' r,
  fs w !! file_path = Some (File data) ->
  fs w !! part_path = Some (File written) ->
  0 <= pos -> 0 <= pb <= remaining ->
  copy_loop fuel file_path part_path remaining (CopyState pos pb) w = (w', r) ->
  exists n,
    0 <= n <= remaining - pb
    /\ fs w' = <[part_path := File (written ++ slice data pos n)]> (fs w)
    /\ (reads_positive w -> reads_positive w')
    /\ match r with
       | Ok st' => n = remaining - pb /\ st' = CopyState (pos + n) remaining
       | Raise e =>
           (e = SplitError "Unexpected end of file"
            /\ (reads_positive w -> Z.of_nat (length data) < pos + (remaining - pb)))
           \/ (e = LoopFuel /\ Z.of_nat fuel < remaining - pb)
       end.
Proof.
  induction fuel as [|fuel IH]; intros pos pb w written w' r Hsrc Hpart Hpos Hpb.
  - simpl. destruct (Z.ltb_spec pb remaining) as [Hlt|Hge].
    + intros [= <- <-]. exists 0. rewrite slice_0, app_nil_r.
      rewrite insert_id by done. split; [lia|]. split; [done|]. split; [done|].
      right. split; [done|]. lia.
    + intros [= <- <-]. exists 0. rewrite slice_0, app_nil_r.
      rewrite insert_id by done. split; [lia|]. split; [done|]. split; [done|].
      split; [lia|]. f_equal; lia.
  - simpl. destruct (Z.ltb_spec pb remaining) as [Hlt|Hge].
    + destruct (copy_step_spec remaining pos pb w written Hsrc Hpart Hpos Hlt)
        as (m & rest & Hm & _ & Hrp & Hmpos & Hstep).
      unfold bind at 1. rewrite Hstep.
      destruct (Z.eqb_spec m 0) as [->|Hm0].
      * intros [= <- <-]. exists 0. rewrite slice_0, app_nil_r. simpl.
        rewrite insert_id by done. split; [lia|]. split; [done|]. split; [done|].
        left. split; [done|]. intros Hp.
        destruct (Z.lt_ge_cases pos (Z.of_nat (length data))) as [Hin|Hout]; [|lia].
        specialize (Hmpos Hp Hin). lia.
      * intros Hloop.
        apply (IH _ _ _ (written ++ slice data pos m)) in Hloop
          as (n & Hn & Hfs & Hrp' & Hr); simpl; try lia.
        2:{ by rewrite lookup_insert_ne. }
        2:{ by rewrite lookup_insert_eq. }
        exists (m + n). split; [lia|]. split.
        { rewrite Hfs. simpl. rewrite insert_insert_eq.
          rewrite <-app_assoc, slice_app by lia. done. }
        split; [by intros Hp; apply Hrp', Hrp|].
        destruct r as [st'|e].
        -- destruct Hr as [-> ->]. split; [lia|]. f_equal; lia.
        -- destruct Hr as [[-> Hr]|[-> Hr]]; [left|right]; (split; [done|]).
           ++ intros Hp. specialize (Hr (Hrp Hp)). lia.
           ++ lia.
    + intros [= <- <-]. exists 0. rewrite slice_0, app_nil_r.
      rewrite insert_id by done. split; [lia|]. split; [done|]. split; [done|].
      split; [lia|]. f_equal; lia.
Qed.

(** The running count stays within [remaining] in every state the
    loop goes through. *)
Lemma copy_reach_bound remaining x y :
  copy_reach file_path part_path remaining x y ->
  forall written,
  fs x.1 !! file_path = Some (File data) ->
  fs x.1 !! part_path = Some (File written) ->
  0 <= src_pos x.2 ->
  0 <= part_bytes x.2 <= remaining ->
  0 <= part_bytes y.2 <= remaining.
Proof.
  induction 1 as [x|w st w1 st1 x Hlt Hstep _ IH]; intros written Hsrc Hpart Hpos Hpb.
  - done.
  - simpl in *. destruct st as [pos pb]. simpl in *.
    destruct (copy_step_spec remaining pos pb w written Hsrc Hpart Hpos Hlt)
      as (m & rest & Hm & _ & _ & _ & Hstep').
    rewrite Hstep in Hstep'.
    destruct (Z.eqb_spec m 0) as [->|Hm0]; [done|].
    injection Hstep' as -> ->.
    apply (IH (written ++ slice data pos m)); simpl; try lia.
    + by rewrite lookup_insert_ne.
    + by rewrite lookup_insert_eq.
Qed.

End copy_loop.

(** ** Making the output directory *)

Lemma rstrip_sep_length s : (String.length (PosixPath.rstrip_sep s) <= String.length s)%nat.
Proof.
  induction s as [|a s IH]; simpl; [lia|].
  destruct (PosixPath.rstrip_sep s) eqn:E; simpl in *.
  - destruct (Ascii.eqb a PosixPath.sep); simpl; lia.
  - lia.
Qed.

Lemma rstrip_sep_app_sep s :
  PosixPath.rstrip_sep (s +:+ String PosixPath.sep EmptyString) = PosixPath.rstrip_sep s.
Proof.
  induction s as [|a s IH]; [done|].
  rewrite append_cons. simpl. by rewrite IH.
Qed.

Lemma dirname_shorter p :
  PosixPath.dirname p <> p ->
  (String.length (PosixPath.dirname p) < String.length p)%nat.
Proof.
  unfold PosixPath.dirname.
  destruct (PosixPath.rpartition PosixPath.sep p) as [[h t]|] eqn:E.
  - apply rpartition_Some in E as [-> _].
    change (String PosixPath.sep t) with (String PosixPath.sep EmptyString +:+ t).
    rewrite <-append_assoc.
    destruct (PyStr.all_chars _ _).
    + destruct t; [by rewrite append_nil_r|].
      intros _. rewrite (length_append _ (String a t)). simpl. lia.
    + intros _. rewrite rstrip_sep_app_sep.
      pose proof (rstrip_sep_length h). rewrite !length_append. simpl. lia.
  - destruct p; [done|]. simpl. lia.
Qed.

Lemma makedirs_go_fuel fuel name m :
  (String.length name <= fuel)%nat -> OS.makedirs_go fuel name m <> Raise LoopFuel.
Proof.
  revert name. induction fuel as [|fuel IH]; intros name Hlen.
  - destruct name; [done|]. simpl in Hlen. lia.
  - simpl. destruct (negb (PyStr.nonempty name)); [done|].
    destruct (m !! name) as [[]|]; try done.
    destruct (negb (PyStr.nonempty (PosixPath.dirname name))); simpl; [done|].
    destruct (String.eqb_spec (PosixPath.dirname name) name) as [|Hne]; [done|].
    apply dirname_shorter in Hne.
    specialize (IH (PosixPath.dirname name) ltac:(lia)).
    destruct (OS.makedirs_go fuel (PosixPath.dirname name) m) as [|[]]; done.
Qed.

(** [makedirs] leaves alone what exists, and what it adds is a
    directory. *)
Lemma makedirs_go_frame fuel : forall name m m',
  OS.makedirs_go fuel name m = Ok m' ->
  forall p, m' !! p = m !! p \/ (m !! p = None /\ m' !! p = Some OS.new_dir).
Proof.
  induction fuel as [|fuel IH]; intros name m m'; simpl.
  - destruct (negb (PyStr.nonempty name)); [done|].
    destruct (m !! name) as [[]|] eqn:E; try done.
    + intros [= <-] p. by left.
    + destruct (negb _ || _); [|done].
      intros [= <-] p. destruct (decide (p = name)) as [->|].
      * right. by rewrite lookup_insert_eq.
      * left. by rewrite lookup_insert_ne.
  - destruct (negb (PyStr.nonempty name)); [done|].
    destruct (m !! name) as [[]|] eqn:E; try done.
    + intros [= <-] p. by left.
    + destruct (negb _ || _).
      * intros [= <-] p. destruct (decide (p = name)) as [->|].
        -- right. by rewrite lookup_insert_eq.
        -- left. by rewrite lookup_insert_ne.
      * destruct (OS.makedirs_go fuel (PosixPath.dirname name) m) as [m1|e] eqn:E1.
        2:{ by destruct e. }
        intros [= <-] p. destruct (decide (p = name)) as [->|].
        -- right. by rewrite lookup_insert_eq.
        -- rewrite lookup_insert_ne by done. by apply (IH _ _ _ E1).
Qed.

Lemma makedirs_frame name w w' r :
  OS.makedirs name w = (w', r) ->
  short_reads w' = short_reads w
  /\ (forall p, fs w' !! p = fs w !! p
                \/ (fs w !! p = None /\ fs w' !! p = Some OS.new_dir))
  /\ r <> Raise LoopFuel.
Proof.
  unfold OS.makedirs.
  pose proof (makedirs_go_fuel (String.length name) name (fs w) ltac:(lia)) as Hf.
  destruct (OS.makedirs_go _ name (fs w)) as [m'|e] eqn:E.
  - intros [= <- <-]. simpl. split; [done|]. split; [|done].
    by apply (makedirs_go_frame _ _ _ _ E).
  - intros [= <- <-]. split; [done|]. split; [by left|]. congruence.
Qed.

Lemma preserves_refl w : preserves w w.
Proof. by intros p _. Qed.

Lemma preserves_trans w1 w2 w3 : preserves w1 w2 -> preserves w2 w3 -> preserves w1 w3.
Proof.
  intros H12 H23 p Hp. rewrite H23, H12; [done..|]. by rewrite H12.
Qed.

Lemma makedirs_preserves name w w' r :
  OS.makedirs name w = (w', r) -> preserves w w'.
Proof.
  intros (_ & H & _)%makedirs_frame p [x Hp].
  destruct (H p) as [|[? _]]; [done|congruence].
Qed.

(** ** Writing the parts *)

Section write_parts.
Variables (file_path output_base : string) (data : list Byte.byte).
Variables (file_size chunk_size : Z) (overwrite : bool).
Hypothesis name_ne_source : forall i, build_part_name output_base i <> file_path.

Local Abbreviation name := (build_part_name output_base).
Local Abbreviation write_part' := (write_part file_path output_base file_size chunk_size overwrite).
Local Abbreviation write_parts' := (write_parts file_path output_base file_size chunk_size overwrite).

(** Lines 142 to 150, once the path is known to be free or
    replaceable: the part is created empty and the loop fills it. *)
Lemma copy_part_spec part pos w w' r :
  part <> file_path ->
  fs w !! file_path = Some (File data) ->
  0 <= pos ->
  (forall sz, fs w !! part <> Some (Dir sz)) ->
  let remaining := Z.min chunk_size (file_size - pos) in
  (OS.open_wb part ;;;
   st <- copy_loop (Z.to_nat remaining) file_path part remaining (CopyState pos 0) ;;
   ret (src_pos st, part)) w = (w', r) ->
  exists n,
    0 <= n <= Z.max 0 remaining
    /\ fs w' = <[part := File (slice data pos n)]> (fs w)
    /\ (reads_positive w -> reads_positive w')
    /\ match r with
       | Ok res => res = (pos + n, part) /\ n = Z.max 0 remaining
       | Raise e =>
           e = SplitError "Unexpected end of file"
           /\ (reads_positive w -> Z.of_nat (length data) < pos + remaining)
       end.
Proof.
  intros Hne Hsrc Hpos Hnodir remaining.
  unfold bind at 1. unfold OS.open_wb.
  assert (forall T (a b : T),
            match fs w !! part with Some (Dir _) => a | _ => b end = b) as ->.
  { intros T a b. specialize (Hnodir). destruct (fs w !! part) as [[|sz]|]; try done.
    by destruct (Hnodir sz). }
  set (w1 := World _ _).
  assert (fs w1 !! file_path = Some (File data)) as Hsrc1.
  { subst w1. simpl. by rewrite lookup_insert_ne. }
  assert (fs w1 !! part = Some (File [])) as Hpart1.
  { subst w1. simpl. by rewrite lookup_insert_eq. }
  unfold bind.
  destruct (copy_loop _ _ _ _ _ w1) as [w2 r2] eqn:Hloop.
  destruct (Z.le_gt_cases 0 remaining) as [Hrem|Hrem].
  - apply (copy_loop_spec file_path part data Hne remaining _ pos 0 w1 [])
      in Hloop as (n & Hn & Hfs & Hrp & Hr); try done; try lia.
    subst w1. simpl in Hfs. rewrite insert_insert_eq in Hfs.
    destruct r2 as [st|e]; intros [= <- <-]; exists n.
    + destruct Hr as [-> ->]. simpl.
      split; [lia|]. split; [done|]. split; [done|].
      split; [f_equal; lia|lia].
    + destruct Hr as [[-> He]|[-> He]]; [|lia].
      split; [lia|]. split; [done|]. split; [done|].
      split; [done|]. intros Hp. specialize (He (Hp : reads_positive (World _ _))). lia.
  - replace (Z.to_nat remaining) with 0%nat in Hloop by lia. simpl in Hloop.
    destruct (Z.ltb_spec 0 remaining); [lia|]. injection Hloop as <- <-.
    intros [= <- <-]. exists 0. rewrite slice_0. simpl.
    split; [lia|]. split; [done|]. split; [done|].
    split; [f_equal; lia|lia].
Qed.

(** One part: either its path is in the way and nothing happens, or
    the part is created and receives the next bytes of the source. *)
Lemma write_part_spec index pos w w' r :
  fs w !! file_path = Some (File data) ->
  0 <= pos ->
  write_part' index pos w = (w', r) ->
  let remaining := Z.min chunk_size (file_size - pos) in
  (path_clear overwrite w (name index) = false
   /\ w' = w /\ exists e, r = Raise e /\ e <> LoopFuel)
  \/ (path_clear overwrite w (name index) = true
      /\ exists n,
           0 <= n <= Z.max 0 remaining
           /\ fs w' = <[name index := File (slice data pos n)]> (fs w)
           /\ (reads_positive w -> reads_positive w')
           /\ match r with
              | Ok res => res = (pos + n, name index) /\ n = Z.max 0 remaining
              | Raise e =>
                  e = SplitError "Unexpected end of file"
                  /\ (reads_positive w -> Z.of_nat (length data) < pos + remaining)
              end).
Proof.
  intros Hsrc Hpos. unfold write_part, path_clear.
  unfold bind at 1. unfold OS.path_exists.
  destruct (fs w !! name index) as [[d|sz]|] eqn:Hpart; simpl.
  - destruct overwrite; simpl.
    + intros Hrun. right. split; [done|].
      apply copy_part_spec in Hrun; try done. by rewrite Hpart.
    + intros [= <- <-]. left. split; [done|]. split; [done|]. by eexists.
  - destruct overwrite; simpl.
    + unfold bind at 1. unfold OS.open_wb. rewrite Hpart.
      intros [= <- <-]. left. split; [done|]. split; [done|]. by eexists.
    + intros [= <- <-]. left. split; [done|]. split; [done|]. by eexists.
  - intros Hrun. right. split; [done|].
    apply copy_part_spec in Hrun; try done. by rewrite Hpart.
Qed.

(** The parts returned are the planned names, whatever the world. *)
Lemma write_parts_paths indices : forall pos parts w w' parts',
  write_parts' indices pos parts w = (w', Ok parts') ->
  parts' = parts ++ map name indices.
Proof.
  induction indices as [|i rest IH]; intros pos parts w w' parts'; simpl.
  - intros [= <- <-]. by rewrite app_nil_r.
  - unfold bind at 1.
    destruct (write_part' i pos w) as [w1 [res|e]] eqn:Hwp; [|done].
    intros ->%IH. rewrite <-app_assoc. do 2 f_equal. simpl.
    revert Hwp. unfold write_part, bind, ret, raise.
    repeat case_match; intros; simplify_eq; done.
Qed.

(** No run of the loops ends for lack of fuel, and without the
    overwrite permission a run only ever adds paths: what was there
    before any part was written is unchanged at the end, and a run that
    ends well has met none of its names. *)
Lemma write_parts_frame indices : forall pos parts w w' r,
  fs w !! file_path = Some (File data) ->
  0 <= pos ->
  write_parts' indices pos parts w = (w', r) ->
  r <> Raise LoopFuel
  /\ (overwrite = false ->
      preserves w w'
      /\ (is_ok r = true -> forall i, i ∈ indices -> fs w !! name i = None)).
Proof.
  induction indices as [|i rest IH]; intros pos parts w w' r Hsrc Hpos; simpl.
  - intros [= <- <-]. split; [done|]. intros _. split; [apply preserves_refl|].
    intros _ i Hi. by apply elem_of_nil in Hi.
  - unfold bind at 1.
    destruct (write_part' i pos w) as [w1 [res|e]] eqn:Hwp.
    + destruct (write_part_spec _ _ _ _ _ Hsrc Hpos Hwp)
        as [(_ & _ & e & ? & _)|(Hclear & n & Hn & Hfs & _ & -> & ->)]; [done|].
      intros Hrest. simpl in Hrest.
      apply IH in Hrest as [Hfuel Hrest]; [| |lia].
      2:{ rewrite Hfs. by rewrite lookup_insert_ne. }
      split; [done|]. intros ->.
      destruct (Hrest eq_refl) as [Hpres Hfresh].
      assert (fs w !! name i = None) as Hnone.
      { unfold path_clear in Hclear. by destruct (fs w !! name i) as [[]|]. }
      assert (preserves w w1) as Hpres1.
      { intros p [x Hp]. rewrite Hfs.
        rewrite lookup_insert_ne; [done|]. congruence. }
      split; [by eapply preserves_trans|].
      intros Hok j [->|Hj]%elem_of_cons; [done|].
      specialize (Hfresh Hok j Hj).
      destruct (fs w !! name j) as [x|] eqn:Hx; [|done].
      rewrite Hpres1 in Hfresh by (by eexists). congruence.
    + destruct (write_part_spec _ _ _ _ _ Hsrc Hpos Hwp)
        as [(_ & -> & e' & [= ->] & He')|(Hclear & n & Hn & Hfs & _ & -> & _)].
      * intros [= <- <-]. split; [congruence|]. intros _.
        split; [apply preserves_refl|done].
      * intros [= <- <-]. split; [done|]. intros ->. split; [|done].
        assert (fs w !! name i = None) as Hnone.
        { unfold path_clear in Hclear. by destruct (fs w !! name i) as [[]|]. }
        intros p [x Hp]. rewrite Hfs.
        rewrite lookup_insert_ne; [done|]. congruence.
Qed.

Hypothesis size_is_length : file_size = Z.of_nat (length data).
Hypothesis chunk_positive : 0 < chunk_size.

Lemma slice_min pos :
  0 <= pos ->
  slice data pos (Z.min chunk_size (file_size - pos)) = slice data pos chunk_size.
Proof.
  intros Hpos. unfold slice.
  destruct (Z.le_gt_cases chunk_size (file_size - pos)).
  - by rewrite Z.min_l.
  - rewrite Z.min_r by lia. rewrite !take_ge; [done|..]; rewrite length_drop; lia.
Qed.

(** The parts [i .. i+k-1], each starting inside the source: a run
    that ends well has written to each of them its chunk of the source,
    and to nothing else. *)
Lemma write_parts_spec k : forall (i : nat) pos parts w w' parts',
  fs w !! file_path = Some (File data) ->
  k = 0%nat \/ (pos = Z.of_nat i * chunk_size
                /\ (Z.of_nat i + Z.of_nat k - 1) * chunk_size < file_size) ->
  write_parts' (map Z.of_nat (seq i k)) pos parts w = (w', Ok parts') ->
  (forall j, (i <= j < i + k)%nat ->
     fs w' !! name (Z.of_nat j)
     = Some (File (slice data (Z.of_nat j * chunk_size) chunk_size)))
  /\ (forall p, (forall j, (i <= j < i + k)%nat -> p <> name (Z.of_nat j)) ->
        fs w' !! p = fs w !! p).
Proof.
  induction k as [|k IH]; intros i pos parts w w' parts' Hsrc Hk; simpl.
  - intros [= <- <-]. split; [intros; lia|done].
  - destruct Hk as [|[-> Hk]]; [done|].
    unfold bind at 1.
    destruct (write_part' _ _ w) as [w1 [res|e]] eqn:Hwp; [|done].
    assert (0 <= Z.of_nat i * chunk_size) as Hpos by nia.
    destruct (write_part_spec _ _ _ _ _ Hsrc Hpos Hwp)
      as [(_ & _ & e & ? & _)|(Hclear & n & Hn & Hfs & _ & -> & ->)]; [done|].
    simpl. intros Hrest.
    apply (IH (S i)) in Hrest as [Hin Hout].
    2:{ rewrite Hfs. by rewrite lookup_insert_ne. }
    2:{ destruct k as [|k]; [by left|right]. split; [nia|nia]. }
    split.
    + intros j Hj. destruct (decide (j = i)) as [->|Hne].
      * rewrite Hout, Hfs, lookup_insert_eq.
        -- rewrite Z.max_r by nia. by rewrite slice_min by nia.
        -- intros j Hj' Heq. apply build_part_name_inj in Heq; lia.
      * apply Hin. lia.
    + intros p Hp. rewrite Hout, Hfs.
      * rewrite lookup_insert_ne; [done|]. intros Heq. by apply (Hp i); [lia|].
      * intros j Hj. apply Hp. lia.
Qed.

(** In a world that lets the run be (no path in the way, every read
    hands over something), the run ends well. *)
Lemma write_parts_succeeds k : forall (i : nat) pos parts w,
  fs w !! file_path = Some (File data) ->
  k = 0%nat \/ (pos = Z.of_nat i * chunk_size
                /\ (Z.of_nat i + Z.of_nat k - 1) * chunk_size < file_size) ->
  (forall j, (i <= j < i + k)%nat ->
     path_clear overwrite w (name (Z.of_nat j)) = true) ->
  reads_positive w ->
  exists w' parts',
    write_parts' (map Z.of_nat (seq i k)) pos parts w = (w', Ok parts').
Proof.
  induction k as [|k IH]; intros i pos parts w Hsrc Hk Hclear Hreads; simpl.
  - by eexists _, _.
  - destruct Hk as [|[-> Hk]]; [done|].
    unfold bind at 1.
    destruct (write_part' _ _ w) as [w1 r] eqn:Hwp.
    assert (0 <= Z.of_nat i * chunk_size) as Hpos by nia.
    destruct (write_part_spec _ _ _ _ _ Hsrc Hpos Hwp)
      as [(Hc & _)|(_ & n & Hn & Hfs & Hrp & Hr)].
    { rewrite Hclear in Hc by lia. done. }
    destruct r as [res|e].
    2:{ destruct Hr as [_ Hr]. specialize (Hr Hreads). nia. }
    destruct Hr as [-> ->]. simpl.
    apply (IH (S i)).
    + rewrite Hfs. by rewrite lookup_insert_ne.
    + destruct k as [|k]; [by left|right]. split; [nia|nia].
    + intros j Hj. unfold path_clear. rewrite Hfs.
      rewrite lookup_insert_ne.
      * apply Hclear. lia.
      * intros Heq. apply build_part_name_inj in Heq; lia.
    + by apply Hrp.
Qed.

End write_parts.

(** ** [split_file] as a whole *)

(** The steps of [split_file], one outcome at a time. *)
Lemma split_file_steps file_path output_dir chunk_size overwrite dry_run w :
  let dir := default (PosixPath.dirname file_path) output_dir in
  let base := output_base_of file_path output_dir in
  split_file file_path output_dir chunk_size overwrite dry_run w =
    match OS.getsize file_path w with
    | (w0, Raise e) => (w0, Raise e)
    | (w0, Ok file_size) =>
        if file_size <=? chunk_size then (w0, Ok [])
        else
          match OS.makedirs dir w0 with
          | (w1, Raise e) => (w1, Raise e)
          | (w1, Ok _) =>
              if chunk_size =? 0 then (w1, Raise ZeroDivisionError)
              else
                let total_parts := (file_size + chunk_size - 1) / chunk_size in
                if dry_run
                then (w1, Ok (map (build_part_name base) (range total_parts)))
                else
                  match OS.open_rb file_path w1 with
                  | (w2, Raise e) => (w2, Raise e)
                  | (w2, Ok _) =>
                      write_parts file_path base file_size chunk_size overwrite
                        (range total_parts) 0 [] w2
                  end
          end
    end.
Proof.
  unfold split_file, output_base_of. unfold bind at 1.
  destruct (OS.getsize file_path w) as [w0 [file_size|e]]; [|done].
  destruct (file_size <=? chunk_size); [done|].
  unfold bind at 1.
  destruct (OS.makedirs _ w0) as [w1 [[]|e]]; [|done].
  unfold bind at 1. unfold floordiv.
  destruct (chunk_size =? 0); [done|]. unfold ret at 1.
  destruct dry_run; [done|].
  unfold bind at 1. by destruct (OS.open_rb file_path w1) as [w2 [[]|e]].
Qed.

(** The steps of [split_file] on a regular file, once the file system
    calls are resolved. *)
Lemma split_file_run file_path output_dir chunk_size overwrite dry_run w data :
  fs w !! file_path = Some (File data) ->
  let file_size := Z.of_nat (length data) in
  let dir := default (PosixPath.dirname file_path) output_dir in
  let base := output_base_of file_path output_dir in
  let total_parts := (file_size + chunk_size - 1) / chunk_size in
  split_file file_path output_dir chunk_size overwrite dry_run w =
    if file_size <=? chunk_size then (w, Ok [])
    else
      match OS.makedirs dir w with
      | (w1, Raise e) => (w1, Raise e)
      | (w1, Ok _) =>
          if chunk_size =? 0 then (w1, Raise ZeroDivisionError)
          else if dry_run then (w1, Ok (map (build_part_name base) (range total_parts)))
          else write_parts file_path base file_size chunk_size overwrite
                 (range total_parts) 0 [] w1
      end.
Proof.
  intros Hsrc file_size dir base total_parts.
  unfold split_file. unfold bind at 1. unfold OS.getsize. rewrite Hsrc.
  fold file_size. destruct (file_size <=? chunk_size); [done|].
  unfold bind at 1. fold dir.
  destruct (OS.makedirs dir w) as [w1 [[]|e]] eqn:Hmk; [|done].
  unfold bind at 1. unfold floordiv.
  destruct (chunk_size =? 0); [done|]. unfold ret at 1.
  destruct dry_run; [done|].
  unfold bind at 1. unfold OS.open_rb.
  apply makedirs_preserves in Hmk. rewrite Hmk, Hsrc by (by eexists). done.
Qed.

Lemma total_parts_bounds file_size chunk_size :
  0 < chunk_size ->
  let n := (file_size + chunk_size - 1) / chunk_size in
  chunk_size * (n - 1) < file_size <= chunk_size * n.
Proof.
  intros HC n.
  pose proof (Z.div_mod (file_size + chunk_size - 1) chunk_size ltac:(lia)) as Hdm.
  pose proof (Z.mod_pos_bound (file_size + chunk_size - 1) chunk_size HC) as Hm.
  fold n in Hdm. nia.
Qed.

(** The chunks of the source, put together again. *)
Lemma concat_slices data chunk_size k : forall i,
  0 < chunk_size ->
  concat (map (fun j => slice data (Z.of_nat j * chunk_size) chunk_size) (seq i k))
  = slice data (Z.of_nat i * chunk_size) (Z.of_nat k * chunk_size).
Proof.
  induction k as [|k IH]; intros i HC; [done|].
  simpl seq. simpl map. simpl concat. rewrite IH by done.
  replace (Z.of_nat (S i) * chunk_size) with (Z.of_nat i * chunk_size + chunk_size) by lia.
  rewrite slice_app by nia. f_equal. lia.
Qed.

Lemma read_files_lookup w ps ds :
  Forall2 (fun p d => fs w !! p = Some (File d)) ps ds ->
  read_files w ps = Some ds.
Proof.
  induction 1 as [|p d ps ds Hp _ IH]; [done|].
  simpl. unfold read_file. by rewrite Hp, IH.
Qed.

(** What a split that ends well leaves behind: the planned names, each
    holding its chunk of the source, and the source as it was. *)
Lemma split_file_ok_contents file_path output_dir chunk_size overwrite w w' parts data :
  fs w !! file_path = Some (File data) ->
  0 < chunk_size -> chunk_size < Z.of_nat (length data) ->
  split_file file_path output_dir chunk_size overwrite false w = (w', Ok parts) ->
  let n := Z.to_nat ((Z.of_nat (length data) + chunk_size - 1) / chunk_size) in
  let name := build_part_name (output_base_of file_path output_dir) in
  parts = map (fun j => name (Z.of_nat j)) (seq 0 n)
  /\ (forall j, (j < n)%nat ->
        fs w' !! name (Z.of_nat j)
        = Some (File (slice data (Z.of_nat j * chunk_size) chunk_size)))
  /\ fs w' !! file_path = Some (File data).
Proof.
  intros Hsrc HC HS. rewrite (split_file_run _ _ _ _ _ _ _ Hsrc).
  destruct (Z.leb_spec (Z.of_nat (length data)) chunk_size) as [|_]; [lia|].
  destruct (OS.makedirs _ w) as [w1 [[]|e]] eqn:Hmk; [|done].
  destruct (Z.eqb_spec chunk_size 0) as [|_]; [lia|].
  intros Hrun n name.
  pose proof (total_parts_bounds (Z.of_nat (length data)) chunk_size HC) as Hn.
  simpl in Hn.
  assert (fs w1 !! file_path = Some (File data)) as Hsrc1.
  { apply makedirs_preserves in Hmk. by rewrite Hmk by (by eexists). }
  assert (forall i, name i <> file_path) as Hne.
  { intros i. apply build_part_name_ne_source. }
  pose proof Hrun as Hpaths. apply write_parts_paths in Hpaths as ->.
  rewrite range_seq in Hrun.
  apply (write_parts_spec _ _ data _ _ _ Hne eq_refl HC) in Hrun as [Hin Hout];
    [|done|right; split; [lia|fold n; lia]].
  split; [by rewrite range_seq, map_map|].
  split; [intros j Hj; apply Hin; lia|].
  rewrite Hout; [done|]. intros j _ Heq. by apply (Hne (Z.of_nat j)).
Qed.

Lemma split_file_succeeds file_path output_dir chunk_size overwrite w data :
  fs w !! file_path = Some (File data) ->
  0 < chunk_size -> chunk_size < Z.of_nat (length data) ->
  unhindered file_path output_dir (Z.of_nat (length data)) chunk_size overwrite w = true ->
  is_ok (split_file file_path output_dir chunk_size overwrite false w).2 = true.
Proof.
  intros Hsrc HC HS. rewrite (split_file_run _ _ _ _ _ _ _ Hsrc).
  unfold unhindered, planned_parts.
  destruct (Z.leb_spec (Z.of_nat (length data)) chunk_size) as [|_]; [lia|].
  destruct (OS.makedirs _ w) as [w1 [[]|e]] eqn:Hmk; [|done].
  destruct (Z.eqb_spec chunk_size 0) as [|_]; [lia|].
  intros [Hclear Hreads]%andb_prop.
  rewrite forallb_forall in Hclear. apply reads_positiveb_spec in Hreads.
  pose proof (total_parts_bounds (Z.of_nat (length data)) chunk_size HC) as Hn.
  simpl in Hn.
  assert (fs w1 !! file_path = Some (File data)) as Hsrc1.
  { apply makedirs_preserves in Hmk. by rewrite Hmk by (by eexists). }
  assert (reads_positive w1) as Hreads1.
  { apply makedirs_frame in Hmk as [Hr _]. unfold reads_positive. by rewrite Hr. }
  rewrite range_seq.
  destruct (write_parts_succeeds file_path (output_base_of file_path output_dir)
              data (Z.of_nat (length data)) chunk_size overwrite
              (fun i => build_part_name_ne_source _ _ i) eq_refl HC
              (Z.to_nat ((Z.of_nat (length data) + chunk_size - 1) / chunk_size))
              0%nat 0 [] w1 Hsrc1) as (w' & parts' & ->); [right; lia| |done|done].
  intros j Hj. apply Hclear. rewrite range_seq.
  apply in_map, in_map, in_seq. lia.
Qed.

Lemma getsize_world p w w0 r : OS.getsize p w = (w0, r) -> w0 = w.
Proof. unfold OS.getsize. by destruct (fs w !! p) as [[]|]; intros [= <- <-]. Qed.

Lemma open_rb_ok p w w0 :
  OS.open_rb p w = (w0, Ok tt) -> w0 = w /\ exists data, fs w !! p = Some (File data).
Proof.
  unfold OS.open_rb. destruct (fs w !! p) as [[data|]|]; intros [= <-].
  split; [done|]. by eexists.
Qed.

Lemma open_rb_world p w w0 r : OS.open_rb p w = (w0, r) -> w0 = w.
Proof. unfold OS.open_rb. by destruct (fs w !! p) as [[]|]; intros [= <- <-]. Qed.

(** No run of [split_file] ends for lack of fuel: the loops of the
    model run to their own end. *)
Lemma split_file_total file_path output_dir chunk_size overwrite dry_run w :
  (split_file file_path output_dir chunk_size overwrite dry_run w).2 <> Raise LoopFuel.
Proof.
  rewrite split_file_steps.
  destruct (OS.getsize file_path w) as [w0 [file_size|e]] eqn:Hg.
  2:{ unfold OS.getsize in Hg. destruct (fs w !! file_path) as [[]|]; simplify_eq; done. }
  destruct (file_size <=? chunk_size); [done|].
  destruct (OS.makedirs _ w0) as [w1 [[]|e]] eqn:Hmk.
  2:{ apply makedirs_frame in Hmk as (_ & _ & Hr). simpl. intros [= ->]. by apply Hr. }
  destruct (chunk_size =? 0); [done|].
  destruct dry_run; [done|].
  destruct (OS.open_rb file_path w1) as [w2 [[]|e]] eqn:Ho.
  2:{ unfold OS.open_rb in Ho. destruct (fs w1 !! file_path) as [[]|]; simplify_eq; done. }
  apply open_rb_ok in Ho as [-> [data Hsrc]].
  destruct (write_parts _ _ _ _ _ _ _ _ w1) as [w' r] eqn:Hrun.
  apply (write_parts_frame file_path _ data) in Hrun as [Hr _]; try done.
  intros i. apply build_part_name_ne_source.
Qed.

(** A dry run writes no file and changes nothing that exists; all it can
    add is directories, those [makedirs] makes. *)
Lemma dry_run_only_adds_directories file_path output_dir chunk_size overwrite w w' r :
  split_file file_path output_dir chunk_size overwrite true w = (w', r) ->
  short_reads w' = short_reads w
  /\ forall p, fs w' !! p = fs w !! p
               \/ (fs w !! p = None /\ fs w' !! p = Some OS.new_dir).
Proof.
  rewrite split_file_steps.
  destruct (OS.getsize file_path w) as [w0 [file_size|e]] eqn:Hg;
    pose proof (getsize_world _ _ _ _ Hg) as ->.
  2:{ intros [= <- <-]. split; [done|]. by left. }
  destruct (file_size <=? chunk_size).
  { intros [= <- <-]. split; [done|]. by left. }
  destruct (OS.makedirs _ w) as [w1 r1] eqn:Hmk.
  apply makedirs_frame in Hmk as (Hr & Hfs & _).
  destruct r1 as [[]|e]; [destruct (chunk_size =? 0)|]; by intros [= <- <-].
Qed.

(** * The claims *)

(** ** C1: the parts, put end to end, are the source *)

(** C1.  Take a source file of [S] bytes and a chunk size [C] with
    [0 < C < S], and run [split_file] for real (no dry run).  If the
    world does not hinder the run, the run ends well; and whenever a run
    ends well, the part files it returns, read in the order of the list
    and concatenated, are byte for byte the source. *)
Theorem split_then_concat file_path output_dir chunk_size overwrite w data :
  fs w !! file_path = Some (File data) ->
  0 < chunk_size -> chunk_size < Z.of_nat (length data) ->
  (unhindered file_path output_dir (Z.of_nat (length data)) chunk_size overwrite w = true ->
   is_ok (split_file file_path output_dir chunk_size overwrite false w).2 = true)
  /\ (forall w' parts,
        split_file file_path output_dir chunk_size overwrite false w = (w', Ok parts) ->
        exists contents,
          read_files w' parts = Some contents /\ concat contents = data).
Proof.
  intros Hsrc HC HS. split; [by apply split_file_succeeds|].
  intros w' parts Hrun.
  destruct (split_file_ok_contents _ _ _ _ _ _ _ _ Hsrc HC HS Hrun) as (-> & Hin & _).
  set (n := Z.to_nat _) in *.
  exists (map (fun j => slice data (Z.of_nat j * chunk_size) chunk_size) (seq 0 n)).
  split.
  - apply read_files_lookup, Forall2_fmap, Forall_Forall2_diag, Forall_forall.
    intros j Hj. apply Hin. apply list_elem_of_In, in_seq in Hj. lia.
  - rewrite concat_slices by done. unfold slice. simpl.
    pose proof (total_parts_bounds (Z.of_nat (length data)) chunk_size HC) as Hn.
    simpl in Hn. apply take_ge. subst n. nia.
Qed.

Lemma split_then_concat_witness :
  let run := split_file "/sd/game.nsp" None 4 false false sample_world in
  is_ok run.2 = true
  /\ exists contents,
       read_files run.1 ["/sd/game.00.nsp"; "/sd/game.01.nsp"; "/sd/game.02.nsp"]
       = Some contents
       /\ concat contents = sample_source.
Proof.
  destruct (split_then_concat "/sd/game.nsp" None 4 false sample_world sample_source)
    as [Hok Hcat]; [vm_compute; reflexivity | lia | simpl; lia |].
  split.
  - apply Hok. vm_compute. reflexivity.
  - apply Hcat. vm_compute. reflexivity.
Defined.

(** ** C2: how many parts, and how long each is *)

(** C2.  Under the same conditions a run that ends well returns
    [N = (S + C - 1) // C] parts, and this [N] is the ceiling of [S / C]:
    [C * (N - 1) < S <= C * N].  Every part but the last holds [C] bytes;
    the last holds [S - C * (N - 1)] bytes, more than none and at most
    [C].  A run the world does not hinder does end well. *)
Theorem split_part_sizes file_path output_dir chunk_size overwrite w data :
  fs w !! file_path = Some (File data) ->
  0 < chunk_size -> chunk_size < Z.of_nat (length data) ->
  let S := Z.of_nat (length data) in
  let N := (S + chunk_size - 1) / chunk_size in
  (unhindered file_path output_dir S chunk_size overwrite w = true ->
   is_ok (split_file file_path output_dir chunk_size overwrite false w).2 = true)
  /\ (forall w' parts,
        split_file file_path output_dir chunk_size overwrite false w = (w', Ok parts) ->
        Z.of_nat (length parts) = N
        /\ chunk_size * (N - 1) < S <= chunk_size * N
        /\ 0 < S - chunk_size * (N - 1) <= chunk_size
        /\ forall (i : nat) p,
             parts !! i = Some p ->
             exists d,
               read_file w' p = Some d
               /\ Z.of_nat (length d) =
                    if Z.of_nat i <? N - 1 then chunk_size
                    else S - chunk_size * (N - 1)).
Proof.
  intros Hsrc HC HS S N. split; [by apply split_file_succeeds|].
  intros w' parts Hrun.
  destruct (split_file_ok_contents _ _ _ _ _ _ _ _ Hsrc HC HS Hrun) as (-> & Hin & _).
  pose proof (total_parts_bounds S chunk_size HC) as Hn. simpl in Hn. fold N in Hn.
  fold S N in Hin.
  assert (0 <= N) as HN0 by nia.
  split; [rewrite length_map, length_seq; by apply Z2Nat.id|].
  split; [done|]. split; [lia|].
  intros i p Hp. apply list_lookup_fmap_Some in Hp as (j & -> & Hj).
  apply lookup_seq in Hj as [-> Hi]. simpl.
  exists (slice data (Z.of_nat i * chunk_size) chunk_size).
  split; [unfold read_file; by rewrite Hin|].
  unfold slice. rewrite length_take, length_drop.
  assert (i < Z.to_nat N)%nat as Hi' by exact Hi.
  assert (S = Z.of_nat (length data)) as HSdef by done.
  destruct (Z.ltb_spec (Z.of_nat i) (N - 1)); nia.
Qed.

Lemma split_part_sizes_witness :
  let run := split_file "/sd/game.nsp" None 4 false false sample_world in
  is_ok run.2 = true
  /\ exists d, read_file run.1 "/sd/game.02.nsp" = Some d /\ Z.of_nat (length d) = 2.
Proof.
  destruct (split_part_sizes "/sd/game.nsp" None 4 false sample_world sample_source)
    as [Hok Hsizes]; [vm_compute; reflexivity | lia | simpl; lia |].
  split.
  - apply Hok. vm_compute. reflexivity.
  - destruct (Hsizes (split_file "/sd/game.nsp" None 4 false false sample_world).1
                ["/sd/game.00.nsp"; "/sd/game.01.nsp"; "/sd/game.02.nsp"])
      as (_ & _ & _ & Hparts); [vm_compute; reflexivity|].
    apply (Hparts 2%nat "/sd/game.02.nsp"). reflexivity.
Defined.

(** ** C3: what the size suffixes mean *)

(** C3, as the specification words it, fails: "2G" is not two thousand
    million bytes. *)
Lemma parse_size_2G_is_binary :
  parse_size "2G" = Ok 2147483648 /\ parse_size "2G" <> Ok 2000000000.
Proof. split; [vm_compute; reflexivity|]. vm_compute. discriminate. Qed.

(** C3, as the code has it.  A bare K, M, G or T is a power of 1024, as
    are KiB, MiB, GiB and TiB; KB, MB, GB and TB are powers of 1000.  So
    "2G" is 2,147,483,648 and "2GB" is 2,000,000,000; "512MiB" is
    536,870,912; "1024" is 1024; "abc" is refused. *)
Theorem parse_size_suffixes :
  parse_size "2G" = Ok 2147483648
  /\ parse_size "2GB" = Ok 2000000000
  /\ parse_size "512MiB" = Ok 536870912
  /\ parse_size "1024" = Ok 1024
  /\ parse_size "abc"
     = Raise (ArgumentTypeError "size must be an integer byte count or end with K/M/G/T")
  /\ map (fun s => parse_size ("1" +:+ s)) ["K"; "M"; "G"; "T"]
     = map Ok [1024; 1024 ^ 2; 1024 ^ 3; 1024 ^ 4]
  /\ map (fun s => parse_size ("1" +:+ s)) ["KiB"; "MiB"; "GiB"; "TiB"]
     = map Ok [1024; 1024 ^ 2; 1024 ^ 3; 1024 ^ 4]
  /\ map (fun s => parse_size ("1" +:+ s)) ["KB"; "MB"; "GB"; "TB"]
     = map Ok [1000; 1000 ^ 2; 1000 ^ 3; 1000 ^ 4].
Proof. repeat split; vm_compute; reflexivity. Qed.

(** ** C4: existing parts and the overwrite permission *)

(** C4, as the code has it.  Without the overwrite permission a run of
    [split_file], dry or not, never changes anything that was there
    before it began: every path that existed keeps its node, whatever
    the outcome.  In a run that is not a dry run, if one of the planned
    part paths existed before the run, the run ends with an error.  (The
    check is made part by part, so parts planned before the first
    existing one may have been created by then.)  A dry run makes no
    such check: it ends as it would with the permission given. *)
Theorem no_overwrite_without_permission file_path output_dir chunk_size dry_run w w' r :
  split_file file_path output_dir chunk_size false dry_run w = (w', r) ->
  preserves w w'
  /\ (dry_run = false ->
      forall file_size p,
        OS.getsize file_path w = (w, Ok file_size) ->
        In p (planned_parts file_path output_dir file_size chunk_size) ->
        is_Some (fs w !! p) ->
        is_ok r = false)
  /\ (dry_run = true ->
      split_file file_path output_dir chunk_size true dry_run w = (w', r)).
Proof.
  destruct dry_run.
  { intros Hrun. split; [|split; [done|]].
    - apply dry_run_only_adds_directories in Hrun as [_ H]. intros p [x Hp].
      destruct (H p) as [|[? _]]; [done|congruence].
    - intros _. rewrite <-Hrun. by rewrite !split_file_steps. }
  rewrite split_file_steps. unfold planned_parts.
  destruct (OS.getsize file_path w) as [w0 [file_size|e]] eqn:Hg;
    pose proof (getsize_world _ _ _ _ Hg) as ->.
  2:{ intros [= <- <-]. split; [apply preserves_refl|]. split; [|done].
      intros; congruence. }
  destruct (file_size <=? chunk_size) eqn:Hle.
  { intros [= <- <-]. split; [apply preserves_refl|]. split; [|done].
    intros _ S p [= <-]. by rewrite Hle. }
  destruct (OS.makedirs _ w) as [w1 [[]|e]] eqn:Hmk;
    pose proof (makedirs_preserves _ _ _ _ Hmk) as Hpres1.
  2:{ by intros [= <- <-]. }
  destruct (chunk_size =? 0).
  { by intros [= <- <-]. }
  destruct (OS.open_rb file_path w1) as [w2 [[]|e]] eqn:Ho;
    pose proof (open_rb_world _ _ _ _ Ho) as ->.
  2:{ by intros [= <- <-]. }
  apply open_rb_ok in Ho as [_ [data Hsrc]].
  intros Hrun.
  apply (write_parts_frame file_path _ data) in Hrun as [_ Hrun]; try done.
  2:{ intros i. apply build_part_name_ne_source. }
  destruct (Hrun eq_refl) as [Hpres2 Hfresh].
  split; [by eapply preserves_trans|]. split; [|done].
  intros _ S p [= <-]. rewrite Hle. intros (i & <- & Hi)%in_map_iff Hp.
  destruct r as [parts|e]; [|done].
  specialize (Hfresh eq_refl i ltac:(by apply list_elem_of_In)).
  rewrite Hpres1 in Hfresh by done. rewrite Hfresh in Hp. by destruct Hp.
Qed.

Lemma no_overwrite_without_permission_witness :
  let run := split_file "/sd/game.nsp" None 4 false false sample_world_conflict in
  preserves sample_world_conflict run.1 /\ is_ok run.2 = false.
Proof.
  intros run.
  destruct (no_overwrite_without_permission "/sd/game.nsp" None 4 false
              sample_world_conflict run.1 run.2) as (Hpres & Hfail & _).
  - apply surjective_pairing.
  - split; [exact Hpres|].
    apply (Hfail eq_refl 10 "/sd/game.01.nsp").
    + vm_compute. reflexivity.
    + vm_compute. right. left. reflexivity.
    + vm_compute. eexists. reflexivity.
Defined.

(** C4, as the specification words it, fails: the second part is in the
    way, the run is refused, and yet the first part has been created
    and filled by then. *)
Lemma overwrite_check_is_per_part :
  let w := sample_world_conflict in
  let run := split_file "/sd/game.nsp" None 4 false false w in
  planned_parts "/sd/game.nsp" None 10 4
    = ["/sd/game.00.nsp"; "/sd/game.01.nsp"; "/sd/game.02.nsp"]
  /\ fs w !! "/sd/game.01.nsp" = Some (File [Byte.xff])
  /\ run.2 = Raise (SplitError
       "Refusing to overwrite existing part: /sd/game.01.nsp. Use --overwrite to replace.")
  /\ fs w !! "/sd/game.00.nsp" = None
  /\ fs run.1 !! "/sd/game.00.nsp"
     = Some (File [Byte.x01; Byte.x02; Byte.x03; Byte.x04])
  /\ fs run.1 <> fs w.
Proof.
  repeat split; try (vm_compute; reflexivity).
  intros H%(f_equal (fun m => m !! "/sd/game.00.nsp")). vm_compute in H. discriminate.
Qed.

(** ** C5: what a dry run touches *)

(** C5 fails on the code: the dry run returns the planned parts, but
    the output directory, which did not exist, exists afterwards. *)
Theorem dry_run_makes_output_dir :
  let w := sample_world in
  let run := split_file "/sd/game.nsp" (Some "/out") 4 false true w in
  run.2 = Ok ["/out/game.00.nsp"; "/out/game.01.nsp"; "/out/game.02.nsp"]
  /\ fs w !! "/out" = None
  /\ fs run.1 !! "/out" = Some (Dir 4096).
Proof. repeat split; vm_compute; reflexivity. Qed.

(** ** C6: a chunk size of zero *)

(** C6 fails on the code: the digit string "0" (and a suffixed size that
    rounds down to zero) is parsed to 0 without complaint, while the
    suffix branch refuses "0k" as not positive; the zero then reaches the
    part count of [main] and of [split_file], where the division fails. *)
Theorem parse_size_accepts_zero :
  parse_size "0" = Ok 0
  /\ parse_size "0.0001k" = Ok 0
  /\ parse_size "0k" = Raise (ArgumentTypeError "size must be positive")
  /\ (intended_parts "/sd/game.nsp" None 0 sample_world).2 = Raise ZeroDivisionError
  /\ (split_file "/sd/game.nsp" None 0 false false sample_world).2
     = Raise ZeroDivisionError.
Proof. repeat split; vm_compute; reflexivity. Qed.

(** ** C7: a file that fits in one chunk is left alone *)

(** C7.  When the source is no longer than the chunk size, [split_file]
    returns the empty list without raising, and the world after the call
    is the world before it: no part appears and the source is
    untouched.  This holds with and without [dry_run]. *)
Theorem split_file_small file_path output_dir chunk_size overwrite dry_run w data :
  fs w !! file_path = Some (File data) ->
  Z.of_nat (length data) <= chunk_size ->
  split_file file_path output_dir chunk_size overwrite dry_run w = (w, Ok []).
Proof.
  intros Hsrc Hle. rewrite (split_file_run _ _ _ _ _ _ _ Hsrc).
  by destruct (Z.leb_spec (Z.of_nat (length data)) chunk_size) as [_|]; [|lia].
Qed.

Lemma split_file_small_witness :
  split_file "/sd/game.nsp" None 10 false false sample_world = (sample_world, Ok []).
Proof.
  apply (split_file_small "/sd/game.nsp" None 10 false false sample_world sample_source).
  - vm_compute. reflexivity.
  - simpl. lia.
Defined.

(** ** C8: the name of a part *)

(** C8.  The name of part [index] of [base_path] is a function of the
    two.  [splitext] cuts the path into a stem and its final extension
    (empty, or a dot followed by neither dot nor slash); the name is the
    stem, a dot, the index as [format(index, "02d")] renders it, and the
    extension.  Without an extension that is the path with the dot and
    the index appended.  The rendering is made of decimal digits that
    read back as the index, at least two of them: below 100 exactly the
    two digits of the index, a zero in front of an index below 10; from
    10 on the number as [str] writes it, so from 100 on more than two
    digits. *)
Theorem build_part_name_spec base_path index :
  0 <= index ->
  exists stem ext,
    PosixPath.splitext base_path = (stem, ext)
    /\ base_path = stem +:+ ext
    /\ (ext = EmptyString
        \/ exists e, ext = String "." e
                    /\ lacks "." e = true /\ lacks "/" e = true)
    /\ build_part_name base_path index
       = stem +:+ "." +:+ PyStr.format_0d 2 index +:+ ext
    /\ (ext = EmptyString ->
        build_part_name base_path index
        = base_path +:+ "." +:+ PyStr.format_0d 2 index)
    /\ PyStr.all_chars PyStr.is_digit (PyStr.format_0d 2 index) = true
    /\ PyStr.digits_value 0 (PyStr.format_0d 2 index) = index
    /\ (2 <= String.length (PyStr.format_0d 2 index))%nat
    /\ (index < 100 -> PyStr.format_0d 2 index = two_digits index)
    /\ (index < 10 -> PyStr.format_0d 2 index = String "0" (PyStr.decimal index))
    /\ (10 <= index -> PyStr.format_0d 2 index = PyStr.decimal index).
Proof.
  intros Hi. destruct (PosixPath.splitext base_path) as [stem ext] eqn:Hs.
  exists stem, ext. pose proof (splitext_spec _ _ _ Hs) as [Hbase _].
  split; [done|]. split; [done|]. split; [by eapply splitext_ext|].
  pose proof (build_part_name_unfold base_path index) as Hname.
  rewrite Hs in Hname. simpl in Hname.
  split; [done|].
  split. { intros ->. rewrite Hname, Hbase. by rewrite !append_nil_r. }
  split; [by apply format_0d_digits|].
  split; [by apply digits_value_format|].
  split; [apply format_0d_length|].
  split; [intros Hlt; apply format_two_digits; lia|].
  split; [intros Hlt; apply format_narrow; lia|].
  apply format_wide.
Qed.

Lemma build_part_name_spec_witness :
  build_part_name "game.nsp" 0 = "game" +:+ "." +:+ "00" +:+ ".nsp".
Proof.
  destruct (build_part_name_spec "game.nsp" 0) as (stem & ext & Hs & _ & _ & Hname & _);
    [lia|].
  vm_compute in Hs. injection Hs as <- <-. exact Hname.
Defined.

(** ** C9: a dry run lists what a real run returns *)

(** C9.  Whenever a real run of [split_file] ends well and returns a
    list of parts, the dry run on the same source, output directory and
    chunk size, in the same world, ends well too and returns the same
    list, same paths in the same order. *)
Theorem dry_run_same_parts file_path output_dir chunk_size overwrite overwrite' w w2 parts :
  split_file file_path output_dir chunk_size overwrite false w = (w2, Ok parts) ->
  exists w1,
    split_file file_path output_dir chunk_size overwrite' true w = (w1, Ok parts).
Proof.
  rewrite !split_file_steps.
  destruct (OS.getsize file_path w) as [w0 [file_size|e]]; [|done].
  destruct (file_size <=? chunk_size).
  { intros [= <- <-]. by eexists. }
  destruct (OS.makedirs _ w0) as [w1 [[]|e]]; [|done].
  destruct (chunk_size =? 0); [done|].
  destruct (OS.open_rb file_path w1) as [w1' [[]|e]]; [|done].
  intros Hrun. apply write_parts_paths in Hrun as ->.
  by eexists.
Qed.

Lemma dry_run_same_parts_witness :
  exists w1,
    split_file "/sd/game.nsp" None 4 false true sample_world
    = (w1, Ok ["/sd/game.00.nsp"; "/sd/game.01.nsp"; "/sd/game.02.nsp"]).
Proof.
  apply (dry_run_same_parts "/sd/game.nsp" None 4 false false sample_world
           (split_file "/sd/game.nsp" None 4 false false sample_world).1).
  vm_compute. reflexivity.
Defined.

(** ** C10: the copy loop writes exactly [remaining] bytes *)

(** C10.  Let the part be open and [remaining = min(chunk_size, file_size
    - pos)] bytes of the source lie ahead of the handle.  Whatever the
    sizes of the reads, as long as every read hands over at least one
    byte (and, as [readinto] does, never more than asked), the loop ends
    with [part_bytes = remaining], having appended to the part exactly
    the next [remaining] bytes of the source; and in no state the loop
    goes through does [part_bytes] exceed [remaining]. *)
Theorem copy_loop_exact file_path part_path chunk_size file_size pos w data written :
  let remaining := Z.min chunk_size (file_size - pos) in
  part_path <> file_path ->
  fs w !! file_path = Some (File data) ->
  fs w !! part_path = Some (File written) ->
  0 <= pos -> 0 <= remaining ->
  file_size <= Z.of_nat (length data) ->
  reads_positive w ->
  (exists w',
     copy_loop (Z.to_nat remaining) file_path part_path remaining (CopyState pos 0) w
     = (w', Ok (CopyState (pos + remaining) remaining))
     /\ read_file w' part_path = Some (written ++ slice data pos remaining)
     /\ Z.of_nat (length (slice data pos remaining)) = remaining)
  /\ (forall w' st',
        copy_reach file_path part_path remaining (w, CopyState pos 0) (w', st') ->
        0 <= part_bytes st' <= remaining).
Proof.
  intros remaining Hne Hsrc Hpart Hpos Hrem Hsize Hreads. split.
  - destruct (copy_loop (Z.to_nat remaining) file_path part_path remaining
                (CopyState pos 0) w) as [w' r] eqn:Hloop.
    destruct (copy_loop_spec file_path part_path data Hne remaining _ pos 0 w
                written w' r Hsrc Hpart Hpos ltac:(lia) Hloop)
      as (n & Hn & Hfs & _ & Hr).
    destruct r as [st'|e].
    + destruct Hr as [-> ->]. exists w'.
      replace (remaining - 0) with remaining in * by lia.
      split; [done|]. split.
      * unfold read_file. by rewrite Hfs, lookup_insert_eq.
      * apply slice_length; lia.
    + destruct Hr as [[_ He]|[_ He]]; [specialize (He Hreads)|]; lia.
  - intros w' st' Hreach.
    apply (copy_reach_bound file_path part_path data Hne remaining _ _ Hreach written);
      simpl; try done; lia.
Qed.

Lemma copy_loop_exact_witness :
  exists w',
    copy_loop 4 "/sd/game.nsp" "/sd/game.00.nsp" 4 (CopyState 0 0) sample_world_open
    = (w', Ok (CopyState 4 4))
    /\ read_file w' "/sd/game.00.nsp" = Some [Byte.x01; Byte.x02; Byte.x03; Byte.x04].
Proof.
  destruct (copy_loop_exact "/sd/game.nsp" "/sd/game.00.nsp" 4 10 0
              sample_world_open sample_source [])
    as [(w' & Hrun & Hread & _) _].
  - discriminate.
  - vm_compute. reflexivity.
  - vm_compute. reflexivity.
  - lia.
  - simpl. lia.
  - simpl. lia.
  - apply reads_positiveb_spec. vm_compute. reflexivity.
  - exists w'. split; [exact Hrun | exact Hread].
Defined.

(** * Further properties of the code *)

(** ** [parse_size] *)

Lemma digit_facts c :
  PyStr.is_digit c = true ->
  PyStr.is_space c = false /\ PyStr.lower_char c = c /\ 0 <= PyStr.code c - 48.
Proof.
  destruct c as [[] [] [] [] [] [] [] []]; vm_compute; intros; repeat split; congruence.
Qed.

Lemma lstrip_digits s : PyStr.all_chars PyStr.is_digit s = true -> PyStr.lstrip s = s.
Proof.
  destruct s as [|c s]; [done|]. simpl. intros [Hc _]%andb_prop.
  by destruct (digit_facts c Hc) as (-> & _).
Qed.

Lemma rstrip_digits s : PyStr.all_chars PyStr.is_digit s = true -> PyStr.rstrip s = s.
Proof.
  induction s as [|c s IH]; [done|]. simpl. intros [Hc Hs]%andb_prop.
  rewrite (IH Hs). destruct (digit_facts c Hc) as (-> & _). by destruct s.
Qed.

Lemma lower_digits s : PyStr.all_chars PyStr.is_digit s = true -> PyStr.lower s = s.
Proof.
  induction s as [|c s IH]; [done|]. simpl. intros [Hc Hs]%andb_prop.
  rewrite (IH Hs). by destruct (digit_facts c Hc) as (_ & -> & _).
Qed.

Lemma digits_value_nonneg s : forall acc,
  0 <= acc -> PyStr.all_chars PyStr.is_digit s = true -> 0 <= PyStr.digits_value acc s.
Proof.
  induction s as [|c s IH]; intros acc Hacc; simpl; [done|].
  intros [Hc Hs]%andb_prop. destruct (digit_facts c Hc) as (_ & _ & ?).
  apply IH; [lia|done].
Qed.

(** A string of digits is read as the number it writes. *)
Lemma parse_size_digits s :
  PyStr.isdigit s = true -> PyStr.len s <= PyStr.int_max_str_digits ->
  parse_size s = Ok (PyStr.digits_value 0 s).
Proof.
  intros Hd Hlen. pose proof Hd as [_ Hall]%andb_prop.
  unfold parse_size, PyStr.strip.
  rewrite lstrip_digits, rstrip_digits, lower_digits by done.
  rewrite Hd. unfold PyStr.int_of_digits.
  by destruct (Z.ltb_spec PyStr.int_max_str_digits (PyStr.len s)); [lia|].
Qed.

Lemma decimal_nonempty n : PyStr.nonempty (PyStr.decimal n) = true.
Proof.
  rewrite decimal_eq. pose proof (to_uint_nonnil (Z.to_N n)).
  by destruct (N.to_uint (Z.to_N n)).
Qed.

(** X1.  Round trip with [str]: a byte count written in decimal, as
    [str(n)] writes it, is parsed back to [n] (CPython's limit of 4300
    digits permitting). *)
Theorem parse_size_decimal n :
  0 <= n -> PyStr.len (PyStr.decimal n) <= PyStr.int_max_str_digits ->
  parse_size (PyStr.decimal n) = Ok n.
Proof.
  intros Hn Hlen. rewrite parse_size_digits; [|..|done].
  - by rewrite digits_value_decimal.
  - unfold PyStr.isdigit. by rewrite decimal_nonempty, decimal_digits.
Qed.

Lemma parse_size_decimal_witness : parse_size (PyStr.decimal 4000000000) = Ok 4000000000.
Proof. apply parse_size_decimal; [lia|]. vm_compute. discriminate. Defined.

Lemma binary_round_aux_sign sx mx ex lx :
  match binary_round_aux PyFloat.prec PyFloat.emax sx mx ex lx with
  | S754_zero s | S754_infinity s | S754_finite s _ _ => s = sx
  | S754_nan => True
  end.
Proof.
  unfold binary_round_aux.
  destruct (shr_fexp _ _ mx ex lx) as [mrs' e'].
  destruct (shr_fexp _ _ _ e' loc_Exact) as [mrs'' e''].
  destruct (shr_m mrs''); [done| |done].
  by destruct (Z.leb e'' _).
Qed.

Lemma to_Z_nonneg x n :
  match x with
  | S754_zero _ | S754_nan => True
  | S754_infinity s | S754_finite s _ _ => s = false
  end ->
  PyFloat.to_Z x = Ok n -> 0 <= n.
Proof.
  destruct x as [s|s| |s m e]; simpl; try done.
  - intros _ [= <-]. lia.
  - intros -> [= <-].
    destruct (Z.leb_spec 0 e).
    + apply Z.mul_nonneg_nonneg; [lia|]. apply Z.pow_nonneg. lia.
    + apply Z.div_pos; [lia|]. apply Z.pow_pos_nonneg; lia.
Qed.

Lemma of_Z_positive mult fm :
  0 < mult -> PyFloat.of_Z mult = Ok fm ->
  match fm with
  | S754_zero _ | S754_nan => True
  | S754_infinity s | S754_finite s _ _ => s = false
  end.
Proof.
  unfold PyFloat.of_Z, binary_normalize. destruct mult as [|p|p]; [lia| |lia].
  intros _. unfold binary_round.
  destruct (shl_align _ _ _) as [mz ez].
  pose proof (binary_round_aux_sign false (Z.pos mz) ez loc_Exact) as Hs.
  destruct (binary_round_aux _ _ _ _ _ _); intros [= <-]; done.
Qed.

Lemma suffixes_positive suffix mult : dict_get suffixes suffix = Some mult -> 0 < mult.
Proof.
  assert (Forall (fun kv => 0 < kv.2) suffixes) as Hall
    by (repeat constructor).
  induction Hall as [|[k v] d Hv _ IH]; simpl; [done|].
  destruct (String.eqb k suffix); [by intros [= <-]|done].
Qed.

Lemma mul_nonneg number fm n :
  PyFloat.leb number PyFloat.zero = false ->
  match fm with
  | S754_zero _ | S754_nan => True
  | S754_infinity s | S754_finite s _ _ => s = false
  end ->
  PyFloat.to_Z (PyFloat.mul number fm) = Ok n -> 0 <= n.
Proof.
  intros Hpos Hfm. apply to_Z_nonneg.
  destruct number as [s|[]| |[] m e]; try done;
    destruct fm as [s'|s'| |s' m' e']; simpl in *; subst; try done.
  pose proof (binary_round_aux_sign false (Z.pos (m * m')) (e + e') loc_Exact) as Hs.
  simpl in Hs.
  by destruct (binary_round_aux _ _ _ _ _ _).
Qed.

Lemma parse_size_suffix_nonneg stripped keys n :
  parse_size_suffix stripped keys = Ok n -> 0 <= n.
Proof.
  induction keys as [|suffix rest IH]; [done|]. cbn [parse_size_suffix].
  destruct (PyStr.endswith stripped suffix); [|done].
  destruct (PyFloat.of_string _) as [number|]; [|done].
  destruct (PyFloat.leb number PyFloat.zero) eqn:Hpos; [done|].
  destruct (dict_get suffixes suffix) as [mult|] eqn:Hmult; [|done].
  destruct (PyFloat.of_Z mult) as [fm|] eqn:Hfm; [|done].
  apply suffixes_positive in Hmult.
  by apply mul_nonneg, (of_Z_positive mult).
Qed.

(** X2.  [parse_size] never returns a negative size: whatever string it
    accepts, the number of bytes is at least 0. *)
Theorem parse_size_nonneg value n : parse_size value = Ok n -> 0 <= n.
Proof.
  unfold parse_size. destruct (PyStr.isdigit _) eqn:Hd.
  - unfold PyStr.int_of_digits. destruct (_ <? _); [done|]. intros [= <-].
    apply andb_prop in Hd as [_ Hall]. by apply digits_value_nonneg.
  - apply parse_size_suffix_nonneg.
Qed.

Lemma parse_size_nonneg_witness : 0 <= 1536.
Proof. apply (parse_size_nonneg " 1.5k "). vm_compute. reflexivity. Defined.

(** X3.  Whole numbers with a suffix are exact: for every integer from 1
    to 2048 and every suffix of the table, in the table's spelling,
    [parse_size] returns that integer times the suffix's multiplier;
    the detour through [float] loses nothing. *)
Theorem parse_size_integer_with_suffix n suffix mult :
  1 <= n <= 2048 -> In (suffix, mult) suffixes ->
  parse_size (PyStr.decimal n +:+ suffix) = Ok (n * mult).
Proof.
  intros Hn Hin.
  assert (forallb (fun n => forallb (size_exact n) suffixes)
            (map (Z.add 1) (range 2048)) = true) as Hall
    by (vm_compute; reflexivity).
  rewrite forallb_forall in Hall.
  assert (In n (map (Z.add 1) (range 2048))) as Hn'.
  { apply in_map_iff. exists (n - 1). split; [lia|].
    apply list_elem_of_In, elem_of_range. lia. }
  specialize (Hall n Hn'). rewrite forallb_forall in Hall.
  specialize (Hall _ Hin). unfold size_exact in Hall. simpl in Hall.
  destruct (parse_size _) as [v|]; [|done].
  apply Z.eqb_eq in Hall. by subst.
Qed.

Lemma parse_size_integer_with_suffix_witness : parse_size ("512" +:+ "mib") = Ok (512 * 1024 ^ 2).
Proof.
  apply (parse_size_integer_with_suffix 512 "mib" (1024 ^ 2)); [lia|].
  vm_compute. tauto.
Defined.

(** ** [build_part_name] *)

(** X4.  Two different part indices never give the same part name, so no
    part of a split is written over another. *)
Theorem part_names_distinct base_path i j :
  0 <= i -> 0 <= j -> i <> j ->
  build_part_name base_path i <> build_part_name base_path j.
Proof. intros Hi Hj Hne Heq. by apply Hne, (build_part_name_inj base_path). Qed.

Lemma part_names_distinct_witness :
  build_part_name "game.nsp" 1 <> build_part_name "game.nsp" 11.
Proof. apply part_names_distinct; lia. Defined.

(** X5.  No part has the path of the file that is being split, whatever
    the output directory and the index: a split never writes over its
    own source. *)
Theorem part_name_is_not_source file_path output_dir index :
  build_part_name (output_base_of file_path output_dir) index <> file_path.
Proof. apply build_part_name_ne_source. Qed.

Lemma lacks_cons c a s : lacks c (String a s) = negb (Ascii.eqb a c) && lacks c s.
Proof. reflexivity. Qed.

Ltac normalize_append :=
  repeat first [rewrite append_assoc | rewrite append_cons | rewrite append_nil_l].

Lemma rpartition_snoc c s t :
  lacks c t = true -> PosixPath.rpartition c (s +:+ String c t) = Some (s, t).
Proof.
  intros Ht. induction s as [|a s IH].
  - rewrite append_nil_l. simpl.
    apply rpartition_None in Ht as ->. by rewrite Ascii.eqb_refl.
  - rewrite append_cons. simpl. by rewrite IH.
Qed.

Lemma dirname_app s t :
  lacks PosixPath.sep t = true -> PosixPath.dirname (s +:+ t) = PosixPath.dirname s.
Proof.
  intros Ht. unfold PosixPath.dirname. rewrite rpartition_app by done.
  by destruct (PosixPath.rpartition PosixPath.sep s) as [[h t']|].
Qed.

(** X6.  A part lies in the directory of the path it is named after. *)
Theorem part_name_same_directory base_path index :
  PosixPath.dirname (build_part_name base_path index) = PosixPath.dirname base_path.
Proof.
  rewrite build_part_name_unfold.
  destruct (PosixPath.splitext base_path) as [stem ext] eqn:Hs. simpl.
  apply splitext_spec in Hs as [-> Hext].
  rewrite !dirname_app; [done|done|].
  by rewrite !lacks_app, format_0d_lacks_sep, Hext.
Qed.

Lemma splitext_name_dot a e :
  lacks PosixPath.extsep e = true ->
  PyStr.all_chars (Ascii.eqb PosixPath.extsep) a = false ->
  PosixPath.splitext_name (a +:+ String PosixPath.extsep e) = (a, String PosixPath.extsep e).
Proof.
  intros He Ha. unfold PosixPath.splitext_name.
  by rewrite rpartition_snoc, Ha.
Qed.

Lemma splitext_name_inv name a e :
  PosixPath.splitext_name name = (a, e) -> e <> EmptyString ->
  exists e', e = String PosixPath.extsep e'
             /\ name = a +:+ String PosixPath.extsep e'
             /\ lacks PosixPath.extsep e' = true
             /\ PyStr.all_chars (Ascii.eqb PosixPath.extsep) a = false.
Proof.
  unfold PosixPath.splitext_name.
  destruct (PosixPath.rpartition PosixPath.extsep name) as [[h t]|] eqn:E.
  - apply rpartition_Some in E as [-> Ht].
    destruct (PyStr.all_chars _ h) eqn:Hh; intros [= <- <-]; [done|].
    intros _. by exists t.
  - by intros [= <- <-].
Qed.

Lemma all_dots_app_false a b :
  PyStr.all_chars (Ascii.eqb PosixPath.extsep) a = false ->
  PyStr.all_chars (Ascii.eqb PosixPath.extsep) (a +:+ b) = false.
Proof. intros Ha. by rewrite all_chars_app, Ha. Qed.

(** The name of a part, cut by [splitext] once more. *)
Lemma splitext_build_part_name base_path index stem ext :
  PosixPath.splitext base_path = (stem, ext) -> ext <> EmptyString ->
  PosixPath.splitext (build_part_name base_path index)
  = (stem +:+ "." +:+ PyStr.format_0d 2 index, ext).
Proof.
  intros Hs Hext. pose proof (build_part_name_unfold base_path index) as ->.
  rewrite Hs. simpl. revert Hs. unfold PosixPath.splitext.
  destruct (PosixPath.rpartition PosixPath.sep base_path) as [[h t]|] eqn:E.
  - apply rpartition_Some in E as [_ Ht].
    destruct (PosixPath.splitext_name t) as [a e] eqn:Et. intros [= <- <-].
    destruct (splitext_name_inv _ _ _ Et Hext) as (e' & -> & -> & He' & Ha).
    rewrite !lacks_app in Ht. apply andb_prop in Ht as [Ha' He''].
    replace ((h +:+ String PosixPath.sep a) +:+ "." +:+ PyStr.format_0d 2 index
             +:+ String PosixPath.extsep e')
      with (h +:+ String PosixPath.sep
              ((a +:+ "." +:+ PyStr.format_0d 2 index) +:+ String PosixPath.extsep e')).
    2:{ by normalize_append. }
    rewrite rpartition_snoc.
    2:{ rewrite !lacks_app, Ha', format_0d_lacks_sep. exact He''. }
    rewrite splitext_name_dot; [|done|by apply all_dots_app_false].
    by normalize_append.
  - intros Et.
    destruct (splitext_name_inv _ _ _ Et Hext) as (e' & -> & -> & He' & Ha).
    apply rpartition_None in E. rewrite !lacks_app in E.
    apply andb_prop in E as [Ha' He''].
    replace (stem +:+ "." +:+ PyStr.format_0d 2 index +:+ String PosixPath.extsep e')
      with ((stem +:+ "." +:+ PyStr.format_0d 2 index) +:+ String PosixPath.extsep e')
      by (by normalize_append).
    assert (PosixPath.rpartition PosixPath.sep
              ((stem +:+ "." +:+ PyStr.format_0d 2 index)
               +:+ String PosixPath.extsep e') = None) as ->.
    { apply rpartition_None. rewrite !lacks_app, Ha', format_0d_lacks_sep. exact He''. }
    rewrite splitext_name_dot; [done|done|by apply all_dots_app_false].
Qed.

(** X7.  A part keeps the extension of the path it is named after: when
    that path has an extension, [splitext] finds the same one on the
    part, so a loader that goes by the extension sees the same kind of
    file. *)
Theorem part_name_keeps_extension base_path index :
  (PosixPath.splitext base_path).2 <> EmptyString ->
  (PosixPath.splitext (build_part_name base_path index)).2
  = (PosixPath.splitext base_path).2.
Proof.
  destruct (PosixPath.splitext base_path) as [stem ext] eqn:Hs. simpl.
  intros Hext. by rewrite (splitext_build_part_name _ _ _ _ Hs Hext).
Qed.

Lemma part_name_keeps_extension_witness :
  (PosixPath.splitext (build_part_name "/sd/game.v1.nsp" 7)).2 = ".nsp".
Proof. apply (part_name_keeps_extension "/sd/game.v1.nsp" 7). vm_compute. discriminate. Defined.

(** X8.  The name of a part can be taken apart again: cutting the
    extension off twice gives back the stem of the original path, and the
    piece cut off second is a dot and digits that read as the index. *)
Theorem part_name_decodes base_path index stem ext :
  0 <= index ->
  PosixPath.splitext base_path = (stem, ext) -> ext <> EmptyString ->
  exists digits,
    PosixPath.splitext (build_part_name base_path index)
    = (stem +:+ String "." digits, ext)
    /\ PosixPath.splitext (stem +:+ String "." digits) = (stem, String "." digits)
    /\ PyStr.digits_value 0 digits = index.
Proof.
  intros Hi Hs Hext. exists (PyStr.format_0d 2 index).
  split; [by rewrite (splitext_build_part_name _ _ _ _ Hs Hext)|].
  split; [|by apply digits_value_format].
  assert (lacks PosixPath.extsep (PyStr.format_0d 2 index) = true) as Hdots.
  { eapply all_chars_impl; [|by apply format_0d_digits].
    intros c Hc. destruct (Ascii.eqb_spec c PosixPath.extsep) as [->|]; [|done].
    by vm_compute in Hc. }
  revert Hs. unfold PosixPath.splitext.
  destruct (PosixPath.rpartition PosixPath.sep base_path) as [[h t]|] eqn:E.
  - apply rpartition_Some in E as [_ Ht].
    destruct (PosixPath.splitext_name t) as [a e] eqn:Et. intros [= <- <-].
    destruct (splitext_name_inv _ _ _ Et Hext) as (e' & -> & -> & He' & Ha).
    rewrite !lacks_app in Ht. apply andb_prop in Ht as [Ha' _].
    rewrite append_assoc, append_cons.
    rewrite rpartition_snoc.
    2:{ by rewrite lacks_app, Ha', lacks_cons, format_0d_lacks_sep. }
    by rewrite splitext_name_dot.
  - intros Et.
    destruct (splitext_name_inv _ _ _ Et Hext) as (e' & -> & -> & He' & Ha).
    apply rpartition_None in E. rewrite !lacks_app in E.
    apply andb_prop in E as [Ha' _].
    assert (PosixPath.rpartition PosixPath.sep
              (stem +:+ String "." (PyStr.format_0d 2 index)) = None) as ->.
    { apply rpartition_None.
      by rewrite lacks_app, Ha', lacks_cons, format_0d_lacks_sep. }
    by rewrite splitext_name_dot.
Qed.

Lemma part_name_decodes_witness :
  exists digits,
    PosixPath.splitext (build_part_name "game.nsp" 7) = ("game" +:+ String "." digits, ".nsp")
    /\ PosixPath.splitext ("game" +:+ String "." digits) = ("game", String "." digits)
    /\ PyStr.digits_value 0 digits = 7.
Proof. apply part_name_decodes; [lia|vm_compute; reflexivity|discriminate]. Defined.

(** ** [split_file] *)

Section write_parts_frame.
Variables (file_path output_base : string) (data : list Byte.byte).
Variables (file_size chunk_size : Z) (overwrite : bool).
Hypothesis name_ne_source : forall i, build_part_name output_base i <> file_path.

(** Whatever the outcome, the loop over the parts changes no path but
    those of the parts it was given. *)
Lemma write_parts_elsewhere indices : forall pos parts w w' r,
  fs w !! file_path = Some (File data) ->
  0 <= pos ->
  write_parts file_path output_base file_size chunk_size overwrite
    indices pos parts w = (w', r) ->
  forall p, (forall i, i ∈ indices -> p <> build_part_name output_base i) ->
            fs w' !! p = fs w !! p.
Proof.
  induction indices as [|i rest IH]; intros pos parts w w' r Hsrc Hpos; simpl.
  - by intros [= <- <-].
  - unfold bind at 1.
    destruct (write_part _ _ _ _ _ i pos w) as [w1 [res|e]] eqn:Hwp;
      destruct (write_part_spec _ _ data _ _ _ name_ne_source _ _ _ _ _ Hsrc Hpos Hwp)
        as [(_ & -> & e' & He & _)|(_ & n & Hn & Hfs & _ & Hr)]; try done.
    + destruct Hr as [-> _]. simpl. intros Hrest p Hp.
      assert (fs w1 !! file_path = Some (File data)) as Hsrc1.
      { rewrite Hfs. by rewrite lookup_insert_ne. }
      assert (0 <= pos + n) as Hpos1 by lia.
      rewrite (IH _ _ _ _ _ Hsrc1 Hpos1 Hrest p).
      * rewrite Hfs, lookup_insert_ne; [done|]. intros Heq.
        apply (Hp i); [by left|done].
      * intros j Hj. apply Hp. by right.
    + by intros [= <- <-].
    + intros [= <- <-] p Hp. rewrite Hfs, lookup_insert_ne; [done|].
      intros Heq. apply (Hp i); [by left|done].
Qed.

(** A run of the loop that ends well found every one of its paths
    clear, when the indices are distinct. *)
Lemma write_parts_ok_clear k : forall (i : nat) pos parts w w' parts',
  fs w !! file_path = Some (File data) ->
  0 <= pos ->
  write_parts file_path output_base file_size chunk_size overwrite
    (map Z.of_nat (seq i k)) pos parts w = (w', Ok parts') ->
  forall j, (i <= j < i + k)%nat ->
            path_clear overwrite w (build_part_name output_base (Z.of_nat j)) = true.
Proof.
  induction k as [|k IH]; intros i pos parts w w' parts' Hsrc Hpos; simpl.
  - intros _ j Hj. lia.
  - unfold bind at 1.
    destruct (write_part _ _ _ _ _ _ pos w) as [w1 [res|e]] eqn:Hwp; [|done].
    destruct (write_part_spec _ _ data _ _ _ name_ne_source _ _ _ _ _ Hsrc Hpos Hwp)
      as [(_ & _ & e' & He & _)|(Hclear & n & Hn & Hfs & _ & -> & _)]; [done|].
    simpl. intros Hrest j Hj.
    destruct (decide (j = i)) as [->|Hne]; [done|].
    assert (fs w1 !! file_path = Some (File data)) as Hsrc1.
    { rewrite Hfs. by rewrite lookup_insert_ne. }
    assert (0 <= pos + n) as Hpos1 by lia.
    assert (S i <= j < S i + k)%nat as Hj1 by lia.
    pose proof (IH (S i) _ _ _ _ _ Hsrc1 Hpos1 Hrest j Hj1) as Hc.
    unfold path_clear in *. rewrite Hfs in Hc.
    rewrite lookup_insert_ne in Hc; [done|].
    intros Heq. apply build_part_name_inj in Heq; lia.
Qed.

End write_parts_frame.

(** The paths a run of [split_file] may write are the planned ones:
    every other path is as before, or is a directory [makedirs] made. *)
Lemma split_file_elsewhere file_path output_dir chunk_size overwrite dry_run w w' r data p :
  fs w !! file_path = Some (File data) ->
  split_file file_path output_dir chunk_size overwrite dry_run w = (w', r) ->
  ~ In p (planned_parts file_path output_dir (Z.of_nat (length data)) chunk_size) ->
  fs w' !! p = fs w !! p
  \/ (fs w !! p = None /\ fs w' !! p = Some OS.new_dir).
Proof.
  intros Hsrc. rewrite (split_file_run _ _ _ _ _ _ _ Hsrc). unfold planned_parts.
  destruct (Z.of_nat (length data) <=? chunk_size).
  { intros [= <- <-] _. by left. }
  destruct (OS.makedirs _ w) as [w1 r1] eqn:Hmk.
  pose proof (makedirs_preserves _ _ _ _ Hmk) as Hpres.
  apply makedirs_frame in Hmk as (_ & Hfs & _).
  destruct r1 as [[]|e]; [|by intros [= <- <-]].
  destruct (chunk_size =? 0); [by intros [= <- <-]|].
  destruct dry_run; [by intros [= <- <-]|].
  intros Hrun Hp.
  rewrite (write_parts_elsewhere file_path _ data _ _ _
             (fun i => build_part_name_ne_source _ _ i) _ _ _ _ _ _
             ltac:(by rewrite Hpres by (by eexists)) ltac:(done) Hrun).
  - apply Hfs.
  - intros i Hi ->. apply Hp, in_map. by apply list_elem_of_In.
Qed.

(** Without the overwrite permission [split_file] leaves every existing
    path as it was, in a dry run as in a real one. *)
Lemma split_file_without_overwrite file_path output_dir chunk_size dry_run w w' r :
  split_file file_path output_dir chunk_size false dry_run w = (w', r) ->
  preserves w w'.
Proof.
  destruct dry_run.
  { intros [_ H]%dry_run_only_adds_directories p [x Hp].
    destruct (H p) as [|[? _]]; [done|congruence]. }
  rewrite split_file_steps.
  destruct (OS.getsize file_path w) as [w0 [file_size|e]] eqn:Hg;
    pose proof (getsize_world _ _ _ _ Hg) as ->.
  2:{ intros [= <- <-]. apply preserves_refl. }
  destruct (file_size <=? chunk_size).
  { intros [= <- <-]. apply preserves_refl. }
  destruct (OS.makedirs _ w) as [w1 [[]|e]] eqn:Hmk;
    pose proof (makedirs_preserves _ _ _ _ Hmk) as Hpres1.
  2:{ by intros [= <- <-]. }
  destruct (chunk_size =? 0).
  { by intros [= <- <-]. }
  destruct (OS.open_rb file_path w1) as [w2 [[]|e]] eqn:Ho;
    pose proof (open_rb_world _ _ _ _ Ho) as ->.
  2:{ by intros [= <- <-]. }
  apply open_rb_ok in Ho as [_ [data Hsrc]].
  intros Hrun.
  apply (write_parts_frame file_path _ data) in Hrun as [_ Hrun]; try done.
  2:{ intros i. apply build_part_name_ne_source. }
  destruct (Hrun eq_refl) as [Hpres2 _]. by eapply preserves_trans.
Qed.

(** X9.  [split_file] changes nothing that exists, the file it splits
    included, as long as it has nothing to replace: if overwriting is
    off, or [os.path.exists] is false of every planned part path, then
    every path present before the run holds afterwards what it held
    before, dry run or not, and whether the call returns or raises. *)
Theorem split_file_keeps_source file_path output_dir chunk_size overwrite dry_run w w' r data :
  fs w !! file_path = Some (File data) ->
  (overwrite = true ->
   forall p,
     In p (planned_parts file_path output_dir (Z.of_nat (length data)) chunk_size) ->
     OS.path_exists p w = (w, Ok false)) ->
  split_file file_path output_dir chunk_size overwrite dry_run w = (w', r) ->
  fs w' !! file_path = Some (File data) /\ preserves w w'.
Proof.
  intros Hsrc Hfree Hrun.
  assert (preserves w w') as Hpres.
  { destruct overwrite; [|by apply split_file_without_overwrite in Hrun].
    intros p [x Hp].
    destruct (split_file_elsewhere _ _ _ _ _ _ _ _ _ p Hsrc Hrun) as [|[? _]];
      [|done|congruence].
    intros Hin. specialize (Hfree eq_refl p Hin).
    unfold OS.path_exists in Hfree. injection Hfree as Hfree.
    apply bool_decide_eq_false in Hfree. apply Hfree. by eexists. }
  split; [|done]. rewrite Hpres; [done|by eexists].
Qed.

Lemma split_file_keeps_source_witness :
  let run := split_file "/sd/game.nsp" None 4 true false sample_world in
  fs run.1 !! "/sd/game.nsp" = Some (File sample_source)
  /\ preserves sample_world run.1.
Proof.
  intros run.
  apply (split_file_keeps_source "/sd/game.nsp" None 4 true false sample_world
           run.1 run.2 sample_source).
  - vm_compute. reflexivity.
  - intros _ p Hp. vm_compute in Hp.
    destruct Hp as [<-|[<-|[<-|[]]]]; vm_compute; reflexivity.
  - apply surjective_pairing.
Defined.

Lemma keeps_kinds_refl w : keeps_kinds w w.
Proof. intros p. destruct (fs w !! p) as [[]|]; by eauto. Qed.

Lemma keeps_kinds_trans w1 w2 w3 :
  keeps_kinds w1 w2 -> keeps_kinds w2 w3 -> keeps_kinds w1 w3.
Proof.
  intros H12 H23 p. specialize (H12 p). specialize (H23 p).
  destruct (fs w1 !! p) as [[]|]; [| |done].
  - destruct H12 as [d Hd]. by rewrite Hd in H23.
  - destruct H12 as [sz Hsz]. by rewrite Hsz in H23.
Qed.

Lemma open_wb_keeps_kinds w w' part d :
  fs w' = <[part := File d]> (fs w) ->
  (forall sz, fs w !! part <> Some (Dir sz)) ->
  keeps_kinds w w'.
Proof.
  intros Hfs Hnodir p. rewrite Hfs.
  destruct (decide (p = part)) as [->|Hne].
  - rewrite lookup_insert_eq.
    destruct (fs w !! part) as [[]|] eqn:E; [by eauto| |done].
    by destruct (Hnodir st_size).
  - rewrite lookup_insert_ne by done. destruct (fs w !! p) as [[]|]; by eauto.
Qed.

Lemma makedirs_keeps_kinds name w w' r :
  OS.makedirs name w = (w', r) -> keeps_kinds w w'.
Proof.
  intros Hpres%makedirs_preserves p. specialize (Hpres p).
  destruct (fs w !! p) as [[]|] eqn:E; [| |done]; rewrite Hpres by done; by eauto.
Qed.

Section write_parts_kinds.
Variables (file_path output_base : string) (data : list Byte.byte).
Variables (file_size chunk_size : Z) (overwrite : bool).
Hypothesis name_ne_source : forall i, build_part_name output_base i <> file_path.

(** The loop over the parts removes nothing, whatever the outcome and
    with or without the overwrite permission. *)
Lemma write_parts_keeps_kinds indices : forall pos parts w w' r,
  fs w !! file_path = Some (File data) ->
  0 <= pos ->
  write_parts file_path output_base file_size chunk_size overwrite
    indices pos parts w = (w', r) ->
  keeps_kinds w w'.
Proof.
  induction indices as [|i rest IH]; intros pos parts w w' r Hsrc Hpos; simpl.
  - intros [= <- <-]. apply keeps_kinds_refl.
  - unfold bind at 1.
    destruct (write_part _ _ _ _ _ i pos w) as [w1 [res|e]] eqn:Hwp;
      destruct (write_part_spec _ _ data _ _ _ name_ne_source _ _ _ _ _ Hsrc Hpos Hwp)
        as [(_ & -> & e' & He & _)|(Hclear & n & Hn & Hfs & _ & Hr)]; try done.
    + assert (keeps_kinds w w1) as H1.
      { apply (open_wb_keeps_kinds _ _ _ _ Hfs). intros sz Hsz.
        unfold path_clear in Hclear. by rewrite Hsz in Hclear. }
      destruct Hr as [-> _]. simpl. intros Hrest.
      assert (fs w1 !! file_path = Some (File data)) as Hsrc1.
      { rewrite Hfs. by rewrite lookup_insert_ne. }
      assert (0 <= pos + n) as Hpos1 by lia.
      eapply keeps_kinds_trans; [exact H1|]. by apply (IH _ _ _ _ _ Hsrc1 Hpos1 Hrest).
    + intros [= <- <-]. apply keeps_kinds_refl.
    + intros [= <- <-]. apply (open_wb_keeps_kinds _ _ _ _ Hfs). intros sz Hsz.
      unfold path_clear in Hclear. by rewrite Hsz in Hclear.
Qed.

End write_parts_kinds.

Lemma split_file_keeps_kinds file_path output_dir chunk_size overwrite dry_run w w' r :
  split_file file_path output_dir chunk_size overwrite dry_run w = (w', r) ->
  keeps_kinds w w'.
Proof.
  rewrite split_file_steps.
  destruct (OS.getsize file_path w) as [w0 [file_size|e]] eqn:Hg;
    pose proof (getsize_world _ _ _ _ Hg) as ->.
  2:{ intros [= <- <-]. apply keeps_kinds_refl. }
  destruct (file_size <=? chunk_size).
  { intros [= <- <-]. apply keeps_kinds_refl. }
  destruct (OS.makedirs _ w) as [w1 r1] eqn:Hmk.
  apply makedirs_keeps_kinds in Hmk.
  destruct r1 as [[]|e]; [|by intros [= <- <-]].
  destruct (chunk_size =? 0); [by intros [= <- <-]|].
  destruct dry_run; [by intros [= <- <-]|].
  destruct (OS.open_rb file_path w1) as [w2 [[]|e]] eqn:Ho;
    pose proof (open_rb_world _ _ _ _ Ho) as ->.
  2:{ by intros [= <- <-]. }
  apply open_rb_ok in Ho as [_ [data Hsrc]].
  intros Hrun. eapply keeps_kinds_trans; [exact Hmk|].
  apply (write_parts_keeps_kinds file_path _ data _ _ _
           (fun i => build_part_name_ne_source _ _ i) _ _ _ _ _ _ Hsrc ltac:(done) Hrun).
Qed.

(** X10.  [split_file] removes nothing and turns no file into a
    directory or directory into a file: whatever the flags and the
    outcome, a path that was a regular file before the run is one after
    it, and a path that was a directory is one after it.  With the
    overwrite permission a part may get new content; nothing else is
    taken away. *)
Theorem split_file_removes_nothing
    file_path output_dir chunk_size overwrite dry_run w w' r p :
  split_file file_path output_dir chunk_size overwrite dry_run w = (w', r) ->
  match fs w !! p with
  | Some (File _) => exists data, fs w' !! p = Some (File data)
  | Some (Dir _) => exists size, fs w' !! p = Some (Dir size)
  | None => True
  end.
Proof. intros Hrun. apply (split_file_keeps_kinds _ _ _ _ _ _ _ _ Hrun p). Qed.

Lemma split_file_removes_nothing_witness :
  let run := split_file "/sd/game.nsp" None 4 true false sample_world_conflict in
  exists data, fs run.1 !! "/sd/game.01.nsp" = Some (File data).
Proof.
  intros run.
  pose proof (split_file_removes_nothing "/sd/game.nsp" None 4 true false
                sample_world_conflict run.1 run.2 "/sd/game.01.nsp"
                (surjective_pairing _)) as H.
  exact H.
Defined.

Lemma copy_loop_empty_read fuel file_path part_path remaining pos w r0 rest :
  short_reads w = r0 :: rest -> r0 <= 0 -> 0 < remaining ->
  copy_loop (S fuel) file_path part_path remaining (CopyState pos 0) w
  = (World (fs w) rest, Raise (SplitError "Unexpected end of file")).
Proof.
  intros Hreads Hr0 Hrem. simpl.
  destruct (Z.ltb_spec 0 remaining); [|lia].
  unfold bind, copy_step, bind, OS.readinto. rewrite Hreads. simpl.
  replace (Z.to_nat (Z.min (Z.min READ_BUFFER (remaining - 0)) r0)) with 0%nat by lia.
  by rewrite take_0.
Qed.

(** X11.  A read that comes back empty ends the split at once: if the
    first read of the source hands over nothing, [split_file] raises
    "Unexpected end of file", and the part it had just opened stays
    behind, empty.  The partial output is not cleaned up. *)
Theorem split_file_empty_read
    file_path output_dir chunk_size overwrite w w1 data r0 rest :
  fs w !! file_path = Some (File data) ->
  0 < chunk_size -> chunk_size < Z.of_nat (length data) ->
  OS.makedirs (default (PosixPath.dirname file_path) output_dir) w = (w1, Ok tt) ->
  path_clear overwrite w1
    (build_part_name (output_base_of file_path output_dir) 0) = true ->
  short_reads w = r0 :: rest -> r0 <= 0 ->
  exists w',
    split_file file_path output_dir chunk_size overwrite false w
    = (w', Raise (SplitError "Unexpected end of file"))
    /\ fs w' !! build_part_name (output_base_of file_path output_dir) 0
       = Some (File []).
Proof.
  intros Hsrc HC HS Hmk Hclear Hreads Hr0.
  rewrite (split_file_run _ _ _ _ _ _ _ Hsrc), Hmk.
  destruct (Z.leb_spec (Z.of_nat (length data)) chunk_size) as [|_]; [lia|].
  destruct (Z.eqb_spec chunk_size 0) as [|_]; [lia|].
  pose proof (total_parts_bounds (Z.of_nat (length data)) chunk_size HC) as Hn.
  simpl in Hn. rewrite range_seq.
  destruct (Z.to_nat _) as [|k] eqn:Hk; [nia|]. clear Hk Hn.
  apply makedirs_frame in Hmk as (Hreads1 & _ & _). rewrite Hreads in Hreads1.
  set (part := build_part_name _ 0) in *.
  simpl. change (Z.of_nat 0) with 0. unfold bind at 1. unfold write_part. fold part.
  unfold bind at 1. unfold OS.path_exists.
  assert (bool_decide (is_Some (fs w1 !! part)) && negb overwrite = false) as ->.
  { unfold path_clear in Hclear.
    destruct (fs w1 !! part) as [[]|]; [by rewrite Hclear, andb_false_r|done|done]. }
  unfold bind at 1. unfold OS.open_wb.
  assert (forall T (a b : T),
            match fs w1 !! part with Some (Dir _) => a | _ => b end = b) as ->.
  { intros T a b. unfold path_clear in Hclear. by destruct (fs w1 !! part) as [[]|]. }
  unfold bind at 1.
  replace (Z.to_nat (Z.min chunk_size (Z.of_nat (length data) - 0)))
    with (S (Z.to_nat (chunk_size - 1))) by lia.
  rewrite (copy_loop_empty_read _ _ _ _ _ _ r0 rest); [|done|done|lia].
  eexists. split; [reflexivity|]. simpl. by rewrite lookup_insert_eq.
Qed.

Lemma split_file_empty_read_witness :
  let w := World (fs sample_world) [0] in
  exists w',
    split_file "/sd/game.nsp" None 4 false false w
    = (w', Raise (SplitError "Unexpected end of file"))
    /\ fs w' !! "/sd/game.00.nsp" = Some (File []).
Proof.
  apply (split_file_empty_read "/sd/game.nsp" None 4 false
           (World (fs sample_world) [0]) (World (fs sample_world) [0])
           sample_source 0 []).
  - vm_compute. reflexivity.
  - lia.
  - simpl. lia.
  - vm_compute. reflexivity.
  - vm_compute. reflexivity.
  - reflexivity.
  - lia.
Defined.

Lemma split_file_keeps_source_any file_path output_dir chunk_size overwrite dry_run w w' r data :
  fs w !! file_path = Some (File data) ->
  split_file file_path output_dir chunk_size overwrite dry_run w = (w', r) ->
  fs w' !! file_path = Some (File data).
Proof.
  intros Hsrc Hrun.
  destruct (split_file_elsewhere _ _ _ _ _ _ _ _ _ file_path Hsrc Hrun) as [->|[? _]];
    [|done|congruence].
  unfold planned_parts. destruct (_ <=? _); [by intros []|].
  intros (i & Heq & _)%in_map_iff. by apply build_part_name_ne_source in Heq.
Qed.

Lemma makedirs_makes_dir name w w' :
  OS.makedirs name w = (w', Ok tt) ->
  PyStr.nonempty name = true /\ exists size, fs w' !! name = Some (Dir size).
Proof.
  unfold OS.makedirs.
  destruct (OS.makedirs_go _ name (fs w)) as [m'|e] eqn:E; [|done].
  intros [= <-]. simpl. revert E.
  assert (forall fuel, OS.makedirs_go fuel name (fs w) = Ok m' ->
            PyStr.nonempty name = true /\ exists size, m' !! name = Some (Dir size)) as H;
    [|apply H].
  intros fuel.
  destruct fuel as [|fuel]; simpl;
    (destruct (PyStr.nonempty name); simpl; [|done]);
    (destruct (fs w !! name) as [[|size]|] eqn:Hn; [done| |]).
  - intros [= <-]. split; [done|]. by eexists.
  - destruct (_ || _); [|done]. intros [= <-]. split; [done|].
    eexists. by rewrite lookup_insert_eq.
  - intros [= <-]. split; [done|]. by eexists.
  - destruct (_ || _).
    + intros [= <-]. split; [done|]. eexists. by rewrite lookup_insert_eq.
    + destruct (OS.makedirs_go fuel _ _) as [m1|[]]; try done.
      intros [= <-]. split; [done|]. eexists. by rewrite lookup_insert_eq.
Qed.

Lemma makedirs_existing name w size :
  fs w !! name = Some (Dir size) -> PyStr.nonempty name = true ->
  OS.makedirs name w = (w, Ok tt).
Proof.
  intros Hdir Hne. unfold OS.makedirs.
  assert (OS.makedirs_go (String.length name) name (fs w) = Ok (fs w)) as ->.
  { destruct (String.length name); simpl; by rewrite Hne, Hdir. }
  by destruct w.
Qed.

(** X12.  Splitting again with [overwrite] changes nothing: after a split
    that ended well, a second split of the same source with the same
    output directory and chunk size, this time allowed to overwrite,
    ends well too, returns the same parts and leaves every path of the
    file system as the first split left it. *)
Theorem split_file_again_with_overwrite
    file_path output_dir chunk_size overwrite w w1 parts data :
  fs w !! file_path = Some (File data) ->
  0 < chunk_size -> chunk_size < Z.of_nat (length data) ->
  split_file file_path output_dir chunk_size overwrite false w = (w1, Ok parts) ->
  reads_positive w1 ->
  exists w2,
    split_file file_path output_dir chunk_size true false w1 = (w2, Ok parts)
    /\ fs w2 = fs w1.
Proof.
  intros Hsrc HC HS Hrun Hreads.
  pose proof (split_file_keeps_source_any _ _ _ _ _ _ _ _ _ Hsrc Hrun) as Hsrc1.
  revert Hrun. rewrite (split_file_run _ _ _ _ _ _ _ Hsrc).
  rewrite (split_file_run _ _ _ _ _ _ _ Hsrc1).
  destruct (Z.leb_spec (Z.of_nat (length data)) chunk_size) as [|_]; [lia|].
  destruct (Z.eqb_spec chunk_size 0) as [|_]; [lia|].
  set (dir := default _ _). set (base := output_base_of _ _).
  destruct (OS.makedirs dir w) as [wm [[]|e]] eqn:Hmk; [|done].
  pose proof (makedirs_preserves _ _ _ _ Hmk) as Hpres.
  destruct (makedirs_makes_dir _ _ _ Hmk) as [Hdirne [size Hdir]].
  assert (fs wm !! file_path = Some (File data)) as Hsrcm.
  { by rewrite Hpres by (by eexists). }
  pose proof (total_parts_bounds (Z.of_nat (length data)) chunk_size HC) as Hn.
  simpl in Hn. rewrite range_seq.
  set (k := Z.to_nat _) in *.
  assert (forall i, build_part_name base i <> file_path) as Hne.
  { intros i. apply build_part_name_ne_source. }
  assert (k = 0%nat \/ 0 = Z.of_nat 0 * chunk_size
                       /\ (Z.of_nat 0 + Z.of_nat k - 1) * chunk_size
                          < Z.of_nat (length data)) as Hk.
  { right. split; [lia|]. subst k. nia. }
  intros Hrun.
  pose proof (write_parts_paths _ _ _ _ _ _ _ _ _ _ _ Hrun) as Hparts.
  pose proof (write_parts_ok_clear _ _ data _ _ _ Hne _ _ _ _ _ _ _ Hsrcm
                ltac:(done) Hrun) as Hclear.
  destruct (write_parts_spec _ _ data _ _ _ Hne eq_refl HC _ _ _ _ _ _ _ Hsrcm Hk Hrun)
    as [Hin Hout].
  (* the output directory is still there *)
  assert (fs w1 !! dir = Some (Dir size)) as Hdir1.
  { rewrite Hout; [done|]. intros j Hj Heq.
    specialize (Hclear j Hj). unfold path_clear in Hclear.
    by rewrite <-Heq, Hdir in Hclear. }
  rewrite (makedirs_existing _ _ _ Hdir1 Hdirne).
  destruct (write_parts_succeeds _ base data _ chunk_size true Hne eq_refl HC
              k 0%nat 0 [] w1 Hsrc1 Hk) as (w2 & parts2 & Hrun2); [|done|].
  { intros j Hj. unfold path_clear. by rewrite Hin. }
  rewrite Hrun2. exists w2.
  pose proof (write_parts_paths _ _ _ _ _ _ _ _ _ _ _ Hrun2) as ->.
  split; [by rewrite Hparts|].
  destruct (write_parts_spec _ _ data _ _ _ Hne eq_refl HC _ _ _ _ _ _ _ Hsrc1 Hk Hrun2)
    as [Hin2 Hout2].
  apply map_eq. intros p.
  destruct (decide (p ∈ map (fun j => build_part_name base (Z.of_nat j)) (seq 0 k)))
    as [Hp|Hp].
  - apply list_elem_of_fmap in Hp as (j & -> & Hj).
    apply list_elem_of_In, in_seq in Hj. by rewrite Hin, Hin2.
  - apply Hout2. intros j Hj ->. apply Hp.
    apply list_elem_of_fmap. exists j. split; [done|].
    by apply list_elem_of_In, in_seq.
Qed.

Lemma split_file_again_with_overwrite_witness :
  let w1 := (split_file "/sd/game.nsp" None 4 false false sample_world).1 in
  exists w2,
    split_file "/sd/game.nsp" None 4 true false w1
    = (w2, Ok ["/sd/game.00.nsp"; "/sd/game.01.nsp"; "/sd/game.02.nsp"])
    /\ fs w2 = fs w1.
Proof.
  apply (split_file_again_with_overwrite "/sd/game.nsp" None 4 false sample_world
           _ _ sample_source).
  - vm_compute. reflexivity.
  - lia.
  - simpl. lia.
  - vm_compute. reflexivity.
  - apply reads_positiveb_spec. vm_compute. reflexivity.
Defined.

(** ** The planning step of [main] *)

Lemma intended_parts_run file_path output chunk_size w data :
  fs w !! file_path = Some (File data) ->
  output <> Some EmptyString ->
  intended_parts file_path output chunk_size w =
    if chunk_size =? 0 then (w, Raise ZeroDivisionError)
    else (w, Ok (map (build_part_name (output_base_of file_path output))
                   (range ((Z.of_nat (length data) + chunk_size - 1) / chunk_size)))).
Proof.
  intros Hsrc Hout. unfold intended_parts, bind, OS.getsize, floordiv.
  rewrite Hsrc. destruct (chunk_size =? 0); [done|].
  unfold ret, output_base_of. do 4 f_equal.
  destruct output as [[|c d]|]; simpl; [done|done|done].
Qed.

(** X13.  For a file larger than one chunk, the list [main] draws up to
    ask about is the list [split_file] plans to write, provided the
    output directory given is not the empty string: the prompt asks
    about the right paths. *)
Theorem intended_parts_are_planned file_path output chunk_size w data :
  fs w !! file_path = Some (File data) ->
  output <> Some EmptyString ->
  chunk_size <> 0 -> chunk_size < Z.of_nat (length data) ->
  intended_parts file_path output chunk_size w
  = (w, Ok (planned_parts file_path output (Z.of_nat (length data)) chunk_size)).
Proof.
  intros Hsrc Hout HC HS. rewrite (intended_parts_run _ _ _ _ _ Hsrc Hout).
  unfold planned_parts.
  destruct (Z.eqb_spec chunk_size 0); [done|].
  by destruct (Z.leb_spec (Z.of_nat (length data)) chunk_size); [lia|].
Qed.

Lemma intended_parts_are_planned_witness :
  intended_parts "/sd/game.nsp" None 4 sample_world
  = (sample_world, Ok ["/sd/game.00.nsp"; "/sd/game.01.nsp"; "/sd/game.02.nsp"]).
Proof.
  apply (intended_parts_are_planned "/sd/game.nsp" None 4 sample_world sample_source).
  - vm_compute. reflexivity.
  - discriminate.
  - lia.
  - simpl. lia.
Defined.

(** X14.  For a file that is not empty and fits in one chunk the two
    disagree: [main] still counts one intended part, the one with index
    0, while [split_file] writes nothing and returns no part. *)
Theorem intended_part_of_small_file
    file_path output chunk_size overwrite dry_run w data :
  fs w !! file_path = Some (File data) ->
  output <> Some EmptyString ->
  0 < Z.of_nat (length data) <= chunk_size ->
  intended_parts file_path output chunk_size w
  = (w, Ok [build_part_name (output_base_of file_path output) 0])
  /\ split_file file_path output chunk_size overwrite dry_run w = (w, Ok []).
Proof.
  intros Hsrc Hout HS. split.
  - rewrite (intended_parts_run _ _ _ _ _ Hsrc Hout).
    destruct (Z.eqb_spec chunk_size 0); [lia|].
    replace ((Z.of_nat (length data) + chunk_size - 1) / chunk_size) with 1; [done|].
    apply Z.div_unique with (r := Z.of_nat (length data) - 1); lia.
  - rewrite (split_file_run _ _ _ _ _ _ _ Hsrc).
    by destruct (Z.leb_spec (Z.of_nat (length data)) chunk_size); [|lia].
Qed.

Lemma intended_part_of_small_file_witness :
  intended_parts "/sd/game.nsp" None 10 sample_world
  = (sample_world, Ok ["/sd/game.00.nsp"])
  /\ split_file "/sd/game.nsp" None 10 false false sample_world = (sample_world, Ok []).
Proof.
  apply (intended_part_of_small_file "/sd/game.nsp" None 10 false false
           sample_world sample_source).
  - vm_compute. reflexivity.
  - discriminate.
  - simpl. lia.
Defined.

(** ** [confirm_overwrite] and [main] *)

Lemma run_unfold {A} (m : M A) s :
  run m s = (Session (m (disk s)).1 (stdin s), (m (disk s)).2).
Proof. unfold run. by destruct (m (disk s)). Qed.

Lemma intended_parts_world file_path output chunk_size w :
  (intended_parts file_path output chunk_size w).1 = w.
Proof.
  unfold intended_parts, bind.
  destruct (OS.getsize file_path w) as [w0 [size|e]] eqn:Hg;
    apply getsize_world in Hg as ->; [|done].
  unfold floordiv. by destruct (_ =? 0).
Qed.

Lemma confirm_overwrite_disk parts s : disk (confirm_overwrite parts s).1 = disk s.
Proof.
  unfold confirm_overwrite. destruct (List.filter _ parts); [done|].
  destruct (stdin s); [done|]. by destruct (_ || _).
Qed.

(** With a planned part in the way and no overwrite permission, a real
    run of [split_file] ends with an error. *)
Lemma split_file_part_in_the_way file_path output_dir chunk_size w data p :
  fs w !! file_path = Some (File data) ->
  In p (planned_parts file_path output_dir (Z.of_nat (length data)) chunk_size) ->
  is_Some (fs w !! p) ->
  is_ok (split_file file_path output_dir chunk_size false false w).2 = false.
Proof.
  intros Hsrc Hin Hp. rewrite (split_file_run _ _ _ _ _ _ _ Hsrc).
  unfold planned_parts in Hin.
  destruct (_ <=? chunk_size); [done|].
  destruct (OS.makedirs _ w) as [w1 [[]|e]] eqn:Hmk; [|done].
  pose proof (makedirs_preserves _ _ _ _ Hmk) as Hpres1.
  destruct (chunk_size =? 0); [done|].
  destruct (write_parts _ _ _ _ _ _ _ _ w1) as [w' r] eqn:Hrun.
  apply (write_parts_frame file_path _ data) in Hrun as [_ Hrun]; try done.
  2:{ intros i. apply build_part_name_ne_source. }
  2:{ by rewrite Hpres1 by (by eexists). }
  destruct (Hrun eq_refl) as [_ Hfresh].
  apply in_map_iff in Hin as (i & <- & Hi).
  destruct r as [parts|e]; [|done]. simpl.
  specialize (Hfresh eq_refl i ltac:(by apply list_elem_of_In)).
  rewrite Hpres1 in Hfresh by done. rewrite Hfresh in Hp. by destruct Hp.
Qed.

(** One round of the loop of [main], with the file system calls named. *)
Lemma main_loop_cons a file_path rest s :
  main_loop a (file_path :: rest) s =
    let w := disk s in
    match (intended_parts file_path (args_output a) (args_chunk_size a) w).2 with
    | Raise e => (s, Uncaught (Std e))
    | Ok intended =>
        let asked :=
          if negb (args_dry_run a) && nonnil intended && negb (args_overwrite a)
          then confirm_overwrite intended s
          else (s, Done tt) in
        match asked.2 with
        | Uncaught e => (asked.1, Uncaught e)
        | Done _ =>
            let r := split_file file_path (args_output a) (args_chunk_size a)
                       (args_overwrite a) (args_dry_run a) w in
            let s3 := Session r.1 (stdin asked.1) in
            match r.2 with
            | Raise (SplitError _) => (s3, Done 1)
            | Raise e => (s3, Uncaught (Std e))
            | Ok _ => main_loop a rest s3
            end
        end
    end.
Proof.
  cbn [main_loop]. rewrite run_unfold, intended_parts_world.
  destruct s as [w input]. cbn [disk stdin].
  destruct (intended_parts _ _ _ w).2 as [intended|e]; [|done].
  match goal with |- context [if ?b then confirm_overwrite ?i ?s1 else ?y] =>
    set (asked := if b then confirm_overwrite i s1 else y) end.
  assert (disk asked.1 = w) as Hw.
  { subst asked. destruct (_ && _); [|done]. apply confirm_overwrite_disk. }
  destruct asked as [s2 [[]|e]]; [|done]. cbn [fst snd] in *.
  rewrite run_unfold, Hw. cbn beta iota.
  by destruct (split_file _ _ _ _ _ w).2 as [|[]].
Qed.

(** X15.  With [--overwrite] or [--dry-run] and the targets given on the
    command line, [main] reads nothing from standard input: a caller
    that cannot answer prompts is never asked. *)
Theorem main_never_asks env a s :
  args_targets a <> [] ->
  args_dry_run a || args_overwrite a = true ->
  stdin (main env a s).1 = stdin s.
Proof.
  intros Hgiven Hflags.
  assert (forall files s0, stdin (main_loop a files s0).1 = stdin s0) as Hloop.
  { induction files as [|file_path rest IH]; intros s0; [done|].
    rewrite main_loop_cons. cbn zeta.
    destruct (intended_parts _ _ _ _).2 as [intended|e]; [|done].
    replace (negb (args_dry_run a) && nonnil intended && negb (args_overwrite a))
      with false.
    2:{ destruct (args_dry_run a), (args_overwrite a), (nonnil intended); done. }
    cbn [fst snd].
    destruct (split_file _ _ _ _ _ _).2 as [parts|[]]; try done.
    by rewrite IH. }
  unfold main. destruct (args_targets a) as [|t ts]; [done|].
  destruct (iter_targets _ _ _ _) as [[|f fs]|[]]; first [done | apply Hloop].
Qed.

Lemma main_never_asks_witness :
  stdin (main sample_environment (Args ["/sd/game.nsp"] None 4 false true false)
           (Session sample_world_conflict ["n"])).1 = ["n"].
Proof.
  apply (main_never_asks sample_environment
           (Args ["/sd/game.nsp"] None 4 false true false)
           (Session sample_world_conflict ["n"])).
  - discriminate.
  - reflexivity.
Defined.

Lemma main_disk_loop env a s (P : world -> world -> Prop) :
  (forall w, P w w) ->
  (forall files s0, P (disk s0) (disk (main_loop a files s0).1)) ->
  P (disk s) (disk (main env a s).1).
Proof.
  intros Hrefl Hloop. unfold main.
  destruct (args_targets a) as [|t ts].
  - destruct (stdin s) as [|line rest]; [apply Hrefl|].
    destruct (PyStr.nonempty _); [|apply Hrefl].
    destruct (iter_targets _ _ _ _) as [[|f fs]|[]]; try apply Hrefl.
    apply (Hloop (f :: fs) (Session (disk s) rest)).
  - destruct (iter_targets _ _ _ _) as [[|f fs]|[]]; try apply Hrefl.
    apply Hloop.
Qed.

(** X16.  Without [--overwrite], [main] never changes or removes
    anything that exists: every path present before the run holds the
    same node after it, whatever is answered at the prompt and however
    the run ends. *)
Theorem main_without_overwrite_preserves env a s :
  args_overwrite a = false ->
  preserves (disk s) (disk (main env a s).1).
Proof.
  intros Hover. apply main_disk_loop; [apply preserves_refl|].
  induction files as [|file_path rest IH]; intros s0; [apply preserves_refl|].
  rewrite main_loop_cons. cbn zeta.
  destruct (intended_parts _ _ _ _).2 as [intended|e]; [|apply preserves_refl].
  match goal with |- context [if ?b then confirm_overwrite ?i ?s1 else ?y] =>
    set (asked := if b then confirm_overwrite i s1 else y) end.
  assert (disk asked.1 = disk s0) as Hw.
  { subst asked. destruct (_ && _); [|done]. apply confirm_overwrite_disk. }
  clearbody asked.
  destruct asked.2 as [[]|e]; [|cbn [fst]; rewrite Hw; apply preserves_refl].
  rewrite Hover.
  destruct (split_file _ _ _ _ _ _) as [w' r] eqn:Hrun.
  apply split_file_without_overwrite in Hrun. cbn [fst snd].
  destruct r as [parts|[]]; try done.
  eapply preserves_trans; [exact Hrun|]. apply (IH (Session w' _)).
Qed.

Lemma main_without_overwrite_preserves_witness :
  preserves sample_world_conflict
    (disk (main sample_environment sample_args
             (Session sample_world_conflict ["yes"])).1).
Proof.
  apply (main_without_overwrite_preserves sample_environment sample_args
           (Session sample_world_conflict ["yes"])).
  reflexivity.
Defined.

(** X17.  A dry run of [main] writes no file: every path holds what it
    held before, except that directories may have been made where
    nothing was. *)
Theorem main_dry_run_adds_only_directories env a s p :
  args_dry_run a = true ->
  fs (disk (main env a s).1) !! p = fs (disk s) !! p
  \/ (fs (disk s) !! p = None
      /\ fs (disk (main env a s).1) !! p = Some OS.new_dir).
Proof.
  intros Hdry.
  apply (main_disk_loop env a s (fun w w' =>
    fs w' !! p = fs w !! p \/ (fs w !! p = None /\ fs w' !! p = Some OS.new_dir)));
    [by left|].
  induction files as [|file_path rest IH]; intros s0; [by left|].
  rewrite main_loop_cons. cbn zeta. rewrite Hdry. cbn [negb andb].
  destruct (intended_parts _ _ _ _).2 as [intended|e]; [|by left].
  cbn [fst snd].
  destruct (split_file _ _ _ _ _ _) as [w' r] eqn:Hrun.
  apply dry_run_only_adds_directories in Hrun as [_ Hrun]. cbn [fst snd].
  assert (forall w2, 
    (fs w2 !! p = fs w' !! p \/ (fs w' !! p = None /\ fs w2 !! p = Some OS.new_dir)) ->
    fs w2 !! p = fs (disk s0) !! p
    \/ (fs (disk s0) !! p = None /\ fs w2 !! p = Some OS.new_dir)) as Htrans.
  { intros w2 [H2|[H2 H2']]; destruct (Hrun p) as [H1|[H1 H1']].
    - left. congruence.
    - right. split; [done|congruence].
    - right. split; [congruence|done].
    - congruence. }
  destruct r as [parts|[]]; try (apply Htrans; by left).
  apply Htrans. apply (IH (Session w' _)).
Qed.

Lemma main_dry_run_adds_only_directories_witness :
  let s := Session sample_world [] in
  let s' := (main sample_environment
               (Args ["/sd/game.nsp"] (Some "/sd/out") 4 false false true) s).1 in
  fs (disk s') !! "/sd/out" = fs (disk s) !! "/sd/out"
  \/ (fs (disk s) !! "/sd/out" = None
      /\ fs (disk s') !! "/sd/out" = Some OS.new_dir).
Proof.
  apply (main_dry_run_adds_only_directories sample_environment
           (Args ["/sd/game.nsp"] (Some "/sd/out") 4 false false true)
           (Session sample_world []) "/sd/out").
  reflexivity.
Defined.

Lemma confirm_overwrite_nothing_there parts s :
  (forall p, In p parts -> fs (disk s) !! p = None) ->
  confirm_overwrite parts s = (s, Done tt).
Proof.
  intros Hnone. unfold confirm_overwrite.
  destruct (List.filter _ parts) as [|p l] eqn:E; [done|].
  assert (In p (List.filter
                  (fun path => bool_decide (is_Some (fs (disk s) !! path))) parts)) as Hp.
  { rewrite E. by left. }
  apply filter_In in Hp as [Hp Hex]. apply bool_decide_eq_true in Hex.
  rewrite (Hnone p Hp) in Hex. by destruct Hex.
Qed.

(** X18.  Answering yes at the prompt does not grant the overwrite:
    without [--overwrite] and [--dry-run], when a part planned for the
    first file exists, the loop of [main] never ends with status 0,
    whatever is typed.  ([split_file] is called with the flag of the
    command line and refuses the part again.) *)
Theorem prompt_cannot_grant_overwrite a file_path rest s data p :
  args_overwrite a = false ->
  args_dry_run a = false ->
  args_output a <> Some EmptyString ->
  fs (disk s) !! file_path = Some (File data) ->
  In p (planned_parts file_path (args_output a) (Z.of_nat (length data))
          (args_chunk_size a)) ->
  is_Some (fs (disk s) !! p) ->
  (main_loop a (file_path :: rest) s).2 <> Done 0.
Proof.
  intros Hover Hdry Hout Hsrc Hin Hp.
  pose proof (split_file_part_in_the_way _ _ _ _ _ _ Hsrc Hin Hp) as Hfail.
  rewrite main_loop_cons. cbn zeta.
  rewrite (intended_parts_run _ _ _ _ _ Hsrc Hout).
  unfold planned_parts in Hin.
  destruct (_ <=? args_chunk_size a); [done|].
  destruct (Z.eqb_spec (args_chunk_size a) 0) as [HC|_]; [done|].
  cbn [snd]. rewrite Hover, Hdry in *. cbn [negb andb].
  set (intended := map _ _) in *.
  assert (nonnil intended = true) as ->.
  { by destruct intended. }
  rewrite andb_true_r.
  unfold confirm_overwrite.
  destruct (List.filter _ intended) as [|q l] eqn:E.
  { assert (In p (List.filter
                    (fun path => bool_decide (is_Some (fs (disk s) !! path))) intended)) as Hq.
    { apply filter_In. split; [done|]. by apply bool_decide_eq_true. }
    rewrite E in Hq. destruct Hq. }
  destruct (stdin s) as [|line input]; [done|].
  destruct (_ || _); [|done]. cbn [fst snd stdin].
  destruct (split_file _ _ _ _ _ _).2 as [parts|[]]; done.
Qed.

Lemma prompt_cannot_grant_overwrite_witness :
  (main_loop sample_args ["/sd/game.nsp"] (Session sample_world_conflict ["yes"])).2
  <> Done 0.
Proof.
  apply (prompt_cannot_grant_overwrite sample_args "/sd/game.nsp" []
           (Session sample_world_conflict ["yes"]) sample_source "/sd/game.01.nsp").
  - reflexivity.
  - reflexivity.
  - discriminate.
  - vm_compute. reflexivity.
  - vm_compute. right. left. reflexivity.
  - vm_compute. eexists. reflexivity.
Defined.

(** X19.  The files of a batch are handled strictly one after another,
    and the first failure ends the batch: the loop of [main] over
    [files1 ++ files2] is the loop over [files1], followed, only if that
    one ends with status 0, by the loop over [files2] from the session
    it leaves. *)
Theorem main_loop_app a files1 files2 s :
  main_loop a (files1 ++ files2) s =
    match main_loop a files1 s with
    | (s', Done 0) => main_loop a files2 s'
    | stopped => stopped
    end.
Proof.
  revert s. induction files1 as [|file_path rest IH]; intros s; [done|].
  rewrite <-app_comm_cons, !main_loop_cons. cbn zeta.
  destruct (intended_parts _ _ _ _).2 as [intended|e]; [|done].
  match goal with |- context [if ?b then confirm_overwrite ?i ?s1 else ?y] =>
    generalize (if b then confirm_overwrite i s1 else y) end.
  intros [s2 [[]|e]]; [|done]. cbn [fst snd].
  destruct (split_file _ _ _ _ _ _).2 as [parts|[]]; first [done | apply IH].
Qed.

(** X20.  One target that is a regular file with a valid extension,
    larger than a positive chunk size, in a world where nothing hinders
    the split: [main] asks nothing, does what [split_file] does, which
    returns the planned parts, and ends with status 0. *)
Theorem main_splits_one_file env a s raw data :
  let file_path := abspath env raw in
  let chunk_size := args_chunk_size a in
  let file_size := Z.of_nat (length data) in
  args_targets a = [raw] ->
  args_dry_run a = false ->
  args_output a <> Some EmptyString ->
  fs (disk s) !! file_path = Some (File data) ->
  valid_extension file_path = true ->
  0 < chunk_size -> chunk_size < file_size ->
  unhindered file_path (args_output a) file_size chunk_size (args_overwrite a) (disk s)
  = true ->
  exists w',
    split_file file_path (args_output a) chunk_size (args_overwrite a) false (disk s)
    = (w', Ok (planned_parts file_path (args_output a) file_size chunk_size))
    /\ main env a s = (Session w' (stdin s), Done 0).
Proof.
  intros file_path chunk_size file_size Htargets Hdry Hout Hsrc Hext HC HS Hun.
  pose proof (split_file_succeeds _ _ _ _ _ _ Hsrc HC HS Hun) as Hok.
  destruct (split_file file_path (args_output a) chunk_size (args_overwrite a) false
              (disk s)) as [w' [parts|e]] eqn:Hrun; [|done].
  exists w'.
  assert (parts = planned_parts file_path (args_output a) file_size chunk_size) as Hparts.
  { destruct (split_file_ok_contents _ _ _ _ _ _ _ _ Hsrc HC HS Hrun) as [-> _].
    unfold planned_parts. fold file_size.
    destruct (Z.leb_spec file_size chunk_size); [lia|].
    by rewrite range_seq, map_map. }
  split; [by rewrite Hparts|].
  unfold main. rewrite Htargets. cbn [iter_targets]. fold file_path.
  rewrite Hsrc, Hext. rewrite main_loop_cons. cbn zeta.
  rewrite (intended_parts_run _ _ _ _ _ Hsrc Hout). fold chunk_size file_size.
  destruct (Z.eqb_spec chunk_size 0) as [|_]; [lia|].
  replace (map _ (range _))
    with (planned_parts file_path (args_output a) file_size chunk_size).
  2:{ unfold planned_parts. by destruct (Z.leb_spec file_size chunk_size); [lia|]. }
  cbn [snd]. rewrite Hdry.
  assert ((if negb false && nonnil (planned_parts file_path (args_output a) file_size chunk_size)
              && negb (args_overwrite a)
           then confirm_overwrite (planned_parts file_path (args_output a) file_size chunk_size) s
           else (s, Done tt)) = (s, Done tt)) as ->.
  { destruct (_ && _ && _) eqn:Hask; [|done].
    apply confirm_overwrite_nothing_there. intros p Hp.
    apply andb_prop in Hask as [_ Hover]. apply negb_true_iff in Hover.
    revert Hun. unfold unhindered. rewrite Hover.
    destruct (OS.makedirs _ (disk s)) as [w1 [[]|e]] eqn:Hmk; [|done].
    intros [Hclear _]%andb_prop. rewrite forallb_forall in Hclear.
    specialize (Hclear p Hp). unfold path_clear in Hclear.
    apply makedirs_preserves in Hmk.
    destruct (fs (disk s) !! p) as [x|] eqn:Hx; [|done].
    rewrite Hmk, Hx in Hclear by (by eexists). by destruct x. }
  cbn [fst snd]. by rewrite Hrun.
Qed.

Lemma main_splits_one_file_witness :
  exists w',
    split_file "/sd/game.nsp" None 4 false false sample_world
    = (w', Ok (planned_parts "/sd/game.nsp" None 10 4))
    /\ main sample_environment sample_args (Session sample_world [])
       = (Session w' [], Done 0).
Proof.
  apply (main_splits_one_file sample_environment sample_args
           (Session sample_world []) "/sd/game.nsp" sample_source).
  - reflexivity.
  - reflexivity.
  - discriminate.
  - vm_compute. reflexivity.
  - vm_compute. reflexivity.
  - reflexivity.
  - vm_compute. reflexivity.
  - vm_compute. reflexivity.
Defined.

(** X21.  When none of the parts exists [confirm_overwrite] returns at
    once: nothing is read from standard input and the session is as it
    was. *)
Theorem confirm_overwrite_silent parts s :
  (forall p, In p parts -> fs (disk s) !! p = None) ->
  confirm_overwrite parts s = (s, Done tt).
Proof. apply confirm_overwrite_nothing_there. Qed.

Lemma confirm_overwrite_silent_witness :
  confirm_overwrite ["/sd/game.00.nsp"; "/sd/game.01.nsp"] (Session sample_world ["n"])
  = (Session sample_world ["n"], Done tt).
Proof.
  apply (confirm_overwrite_silent ["/sd/game.00.nsp"; "/sd/game.01.nsp"]
           (Session sample_world ["n"])).
  intros p [<-|[<-|[]]]; vm_compute; reflexivity.
Defined.

Lemma strip_spaces line :
  PyStr.all_chars PyStr.is_space line = true -> PyStr.strip line = EmptyString.
Proof.
  unfold PyStr.strip. induction line as [|c r IH]; [done|].
  simpl. intros [Hc Hr]%andb_prop. rewrite Hc. by apply IH.
Qed.

(** X22.  With no target on the command line, [main] asks for one; if
    standard input is at its end, or the line typed is empty or made of
    white space only, [main] ends with status 1 and the file system is
    as it was. *)
Theorem main_without_input env a s :
  args_targets a = [] ->
  match stdin s with
  | [] => True
  | line :: _ => PyStr.all_chars PyStr.is_space line = true
  end ->
  main env a s = (Session (disk s) (tail (stdin s)), Done 1).
Proof.
  intros Htargets Hblank. unfold main. rewrite Htargets.
  destruct s as [w [|line rest]]; [done|].
  cbn [stdin disk tail]. by rewrite (strip_spaces _ Hblank).
Qed.

Lemma main_without_input_witness :
  main sample_environment (Args [] None 4 false false false)
    (Session sample_world ["   "; "y"])
  = (Session sample_world ["y"], Done 1).
Proof.
  apply (main_without_input sample_environment (Args [] None 4 false false false)
           (Session sample_world ["   "; "y"])).
  - reflexivity.
  - reflexivity.
Defined.

(** ** [iter_targets] *)

Lemma rpartition_app_Some c s t h t' :
  PosixPath.rpartition c t = Some (h, t') ->
  PosixPath.rpartition c (s +:+ t) = Some (s +:+ h, t').
Proof.
  intros Ht. induction s as [|a s IH]; [done|].
  rewrite !append_cons. simpl. by rewrite IH.
Qed.

Lemma splitext_ext_app_sep s t :
  (PosixPath.splitext (s +:+ String PosixPath.sep t)).2 = (PosixPath.splitext t).2.
Proof.
  unfold PosixPath.splitext.
  destruct (PosixPath.rpartition PosixPath.sep t) as [[h t']|] eqn:E.
  - rewrite (rpartition_app_Some _ s _ (String PosixPath.sep h) t').
    2:{ simpl. by rewrite E. }
    by destruct (PosixPath.splitext_name t').
  - apply rpartition_None in E. rewrite rpartition_snoc by done.
    by destruct (PosixPath.splitext_name t).
Qed.

Lemma endswith_sep_inv a :
  PosixPath.endswith_sep a = true ->
  exists a', a = a' +:+ String PosixPath.sep EmptyString.
Proof.
  unfold PosixPath.endswith_sep, PyStr.endswith.
  intros [_ H]%andb_prop. apply String.eqb_eq in H. revert H.
  induction a as [|c r IH]; [done|].
  destruct r as [|c' r'].
  - simpl. intros [= ->]. by exists EmptyString.
  - intros H. destruct IH as [a' Ha'].
    + simpl in H |- *. rewrite Nat.sub_0_r. exact H.
    + exists (String c a'). by rewrite Ha'.
Qed.

(** The extension of a joined path is that of its last component. *)
Lemma splitext_ext_join a b :
  (PosixPath.splitext (PosixPath.join a b)).2 = (PosixPath.splitext b).2.
Proof.
  unfold PosixPath.join. destruct (PosixPath.startswith_sep b); [done|].
  destruct (negb (PyStr.nonempty a) || PosixPath.endswith_sep a) eqn:E.
  - apply orb_prop in E as [E|E].
    + by destruct a.
    + apply endswith_sep_inv in E as [a' ->].
      rewrite append_assoc, append_cons, append_nil_l. apply splitext_ext_app_sep.
  - apply splitext_ext_app_sep.
Qed.

Lemma valid_extension_join a b :
  valid_extension (PosixPath.join a b) = valid_extension b.
Proof. unfold valid_extension. by rewrite splitext_ext_join. Qed.

Lemma walk_targets_valid recursive triples :
  Forall (fun f => valid_extension f = true) (walk_targets recursive triples).
Proof.
  induction triples as [|[[root dirs] files] rest IH]; [constructor|].
  cbn [walk_targets]. apply Forall_app. split.
  - apply List.Forall_forall. intros f (name & <- & Hname)%in_map_iff.
    apply filter_In in Hname as [_ Hname]. by rewrite valid_extension_join.
  - destruct recursive; [done|constructor].
Qed.

(** X23.  Every path [iter_targets] yields has one of the three
    extensions, compared without regard to case, whether it was given
    as a file or found in a directory. *)
Theorem iter_targets_valid env w paths recursive files :
  iter_targets env w paths recursive = Ok files ->
  Forall (fun f => valid_extension f = true) files.
Proof.
  revert files. induction paths as [|raw rest IH]; intros files; cbn [iter_targets].
  { intros [= <-]. constructor. }
  destruct (fs w !! abspath env raw) as [[data|size]|]; [| |done].
  - destruct (valid_extension (abspath env raw)) eqn:Hext; [|done].
    destruct (iter_targets env w rest recursive) as [found|e]; [|done].
    intros [= <-]. constructor; [done|]. by apply IH.
  - destruct (iter_targets env w rest recursive) as [found|e]; [|done].
    intros [= <-]. apply Forall_app. split; [apply walk_targets_valid|by apply IH].
Qed.

Lemma iter_targets_valid_witness :
  Forall (fun f => valid_extension f = true) ["/sd/Game.NSP"; "/sd/zelda.xci"].
Proof.
  apply (iter_targets_valid sample_environment sample_world ["/sd"] false).
  vm_compute. reflexivity.
Defined.

Lemma iter_targets_bad env w paths recursive raw :
  In raw paths ->
  match fs w !! abspath env raw with
  | None => True
  | Some (File _) => valid_extension (abspath env raw) = false
  | Some (Dir _) => False
  end ->
  exists msg, iter_targets env w paths recursive = Raise (SplitError msg).
Proof.
  intros Hin Hbad. induction paths as [|raw0 rest IH]; [done|].
  cbn [iter_targets].
  destruct Hin as [->|Hin].
  - destruct (fs w !! abspath env raw) as [[data|size]|]; [|done|by eexists].
    rewrite Hbad. by eexists.
  - destruct (IH Hin) as [msg ->].
    destruct (fs w !! abspath env raw0) as [[data|size]|]; [|by eexists..].
    destruct (valid_extension (abspath env raw0)); by eexists.
Qed.

(** X24.  The targets are all checked before any file is split: if any
    of the targets given, even the last, does not exist or is a file
    with another extension, [main] ends with status 1 and has touched
    nothing. *)
Theorem main_checks_targets_first env a s raw :
  In raw (args_targets a) ->
  match fs (disk s) !! abspath env raw with
  | None => True
  | Some (File _) => valid_extension (abspath env raw) = false
  | Some (Dir _) => False
  end ->
  main env a s = (s, Done 1).
Proof.
  intros Hin Hbad. unfold main.
  destruct (args_targets a) as [|t ts] eqn:Ht; [done|].
  by destruct (iter_targets_bad env (disk s) (t :: ts) (args_recursive a) raw Hin Hbad)
    as [msg ->].
Qed.

Lemma main_checks_targets_first_witness :
  let a := Args ["/sd/game.nsp"; "/sd/missing.nsp"] None 4 false true false in
  main sample_environment a (Session sample_world [])
  = (Session sample_world [], Done 1).
Proof.
  apply (main_checks_targets_first sample_environment
           (Args ["/sd/game.nsp"; "/sd/missing.nsp"] None 4 false true false)
           (Session sample_world []) "/sd/missing.nsp").
  - right. left. reflexivity.
  - vm_compute. exact I.
Defined.

Lemma sorted_Permutation l1 l2 : l1 ≡ₚ l2 -> sorted l1 = sorted l2.
Proof.
  intros Hp. unfold sorted.
  apply (Sorted_unique String.le); try apply _.
  - apply Sorted_merge_sort, _.
  - apply Sorted_merge_sort, _.
  - by rewrite !merge_sort_Permutation.
Qed.

Lemma walk_targets_listing_order recursive triples1 triples2 :
  Forall2 (fun t1 t2 => t1.1.1 = t2.1.1 /\ t1.2 ≡ₚ t2.2) triples1 triples2 ->
  walk_targets recursive triples1 = walk_targets recursive triples2.
Proof.
  induction 1 as [|[[root1 dirs1] files1] [[root2 dirs2] files2] ts1 ts2 [Hr Hf] _ IH];
    [done|].
  cbn [walk_targets]. simpl in Hr, Hf. subst root2.
  rewrite (sorted_Permutation _ _ Hf). by rewrite IH.
Qed.

(** X25.  What [iter_targets] yields does not depend on the order in
    which the system lists the files of a directory, nor on the
    subdirectory names it reports: two systems whose walks visit the
    same directories with the same files give the same result. *)
Theorem iter_targets_listing_order env1 env2 w paths recursive :
  (forall p, abspath env1 p = abspath env2 p) ->
  (forall p, Forall2 (fun t1 t2 => t1.1.1 = t2.1.1 /\ t1.2 ≡ₚ t2.2)
               (walk env1 p) (walk env2 p)) ->
  iter_targets env1 w paths recursive = iter_targets env2 w paths recursive.
Proof.
  intros Habs Hwalk. induction paths as [|raw rest IH]; [done|].
  cbn [iter_targets]. rewrite IH, <-Habs.
  destruct (fs w !! abspath env1 raw) as [[data|size]|]; [done| |done].
  by rewrite (walk_targets_listing_order _ _ _ (Hwalk (abspath env1 raw))).
Qed.

Lemma iter_targets_listing_order_witness :
  let env2 := Environment (fun p => p)
    (fun top => [(top, [], ["Game.NSP"; "zelda.xci"; "notes.txt"]);
                 (PosixPath.join top "saves", [], ["old.nsz"])]) in
  iter_targets sample_environment sample_world ["/sd"] true
  = iter_targets env2 sample_world ["/sd"] true.
Proof.
  apply (iter_targets_listing_order sample_environment).
  - reflexivity.
  - intros p. simpl. constructor; [|constructor; [|constructor]].
    + split; [reflexivity|]. simpl.
      eapply perm_trans; [apply perm_skip, perm_swap|apply perm_swap].
    + split; reflexivity.
Defined.

Lemma walk_targets_sublist triples :
  sublist (walk_targets false triples) (walk_targets true triples).
Proof.
  destruct triples as [|[[root dirs] files] rest]; [done|].
  cbn [walk_targets]. rewrite app_nil_r. by apply sublist_inserts_r.
Qed.

(** X26.  Turning [--recursive] on never loses a file: when the plain
    search succeeds so does the recursive one, and the paths of the
    first come, in the same order, among those of the second. *)
Theorem iter_targets_recursive_finds_more env w paths files :
  iter_targets env w paths false = Ok files ->
  exists more,
    iter_targets env w paths true = Ok more /\ sublist files more.
Proof.
  revert files. induction paths as [|raw rest IH]; intros files; cbn [iter_targets].
  { intros [= <-]. by exists []. }
  destruct (fs w !! abspath env raw) as [[data|size]|]; [| |done].
  - destruct (valid_extension _); [|done].
    destruct (iter_targets env w rest false) as [found|e]; [|done].
    intros [= <-]. destruct (IH found eq_refl) as (more & -> & Hsub).
    eexists. split; [done|]. by apply sublist_skip.
  - destruct (iter_targets env w rest false) as [found|e]; [|done].
    intros [= <-]. destruct (IH found eq_refl) as (more & -> & Hsub).
    eexists. split; [done|]. apply sublist_app; [apply walk_targets_sublist|done].
Qed.

Lemma iter_targets_recursive_finds_more_witness :
  exists more,
    iter_targets sample_environment sample_world ["/sd"] true = Ok more
    /\ sublist ["/sd/Game.NSP"; "/sd/zelda.xci"] more.
Proof.
  apply (iter_targets_recursive_finds_more sample_environment sample_world ["/sd"]).
  vm_compute. reflexivity.
Defined.

(** ** [human_readable_size] *)

(** X27.  Whole multiples of a unit are printed exactly: for [k] from 1
    to 999 and each of the five units, [k] times the unit's power of
    1000 is rendered as [k], two zero decimals and the unit. *)
Theorem human_readable_size_whole k j unit :
  1 <= k <= 999 -> units !! j = Some unit ->
  human_readable_size (k * 1000 ^ Z.of_nat j)
  = Ok (PyStr.decimal k +:+ ".00 " +:+ unit).
Proof.
  intros Hk Hj.
  assert (forallb (fun k => forallb (whole_unit_exact k) (seq 0 5))
            (map (Z.add 1) (range 999)) = true) as Hall
    by (vm_compute; reflexivity).
  rewrite forallb_forall in Hall.
  assert (In k (map (Z.add 1) (range 999))) as Hk'.
  { apply in_map_iff. exists (k - 1). split; [lia|].
    apply list_elem_of_In, elem_of_range. lia. }
  specialize (Hall k Hk'). rewrite forallb_forall in Hall.
  assert (In j (seq 0 5)) as Hj'.
  { apply in_seq. apply lookup_lt_Some in Hj. simpl in Hj. lia. }
  specialize (Hall j Hj'). unfold whole_unit_exact in Hall. rewrite Hj in Hall.
  destruct (human_readable_size _) as [text|]; [|done].
  by apply String.eqb_eq in Hall as ->.
Qed.

Lemma human_readable_size_whole_witness :
  human_readable_size (4 * 1000 ^ Z.of_nat 3) = Ok ("4" +:+ ".00 " +:+ "GB").
Proof.
  apply (human_readable_size_whole 4 3 "GB"); [lia|reflexivity].
Defined.

(** The number of binary digits, as [SpecFloat] counts them. *)
Lemma digits2_pos_size p : digits2_pos p = Pos.size p.
Proof. induction p as [p IH|p IH|]; simpl; by rewrite ?IH. Qed.

Lemma Zdigits2_gt m : Z.abs m < 2 ^ Zdigits2 m.
Proof.
  assert (forall p, Z.pos p < 2 ^ Z.pos (digits2_pos p)) as Hpos.
  { intros p. rewrite digits2_pos_size.
    pose proof (Pos.size_gt p) as H.
    apply Pos2Z.pos_lt_pos in H. by rewrite Pos2Z.inj_pow in H. }
  destruct m as [|p|p]; simpl; [done|apply Hpos..].
Qed.

Lemma Zdigits2_le m d : 0 <= d -> Z.abs m < 2 ^ d -> Zdigits2 m <= d.
Proof.
  intros Hd Hm.
  assert (forall p, Z.pos p < 2 ^ d -> Z.pos (digits2_pos p) <= d) as Hpos.
  { intros p Hp. rewrite digits2_pos_size.
    pose proof (Pos.size_le p) as H.
    apply Pos2Z.pos_le_pos in H. rewrite Pos2Z.inj_pow in H.
    change (Z.pos p~0) with (2 * Z.pos p) in H.
    assert (2 ^ Z.pos (Pos.size p) < 2 ^ (d + 1)) as Hlt.
    { rewrite Z.pow_add_r, Z.pow_1_r by lia. lia. }
    apply Z.pow_lt_mono_r_iff in Hlt; lia. }
  destruct m as [|p|p]; simpl in *; [done|by apply Hpos..].
Qed.

Lemma shr_1_digits mrs :
  Zdigits2 (shr_m (shr_1 mrs)) = Z.max 0 (Zdigits2 (shr_m mrs) - 1).
Proof.
  destruct mrs as [[|[p|p|]|[p|p|]] r s]; simpl; lia.
Qed.

Lemma iter_shr_1_digits n : forall mrs,
  Zdigits2 (shr_m (SpecFloat.iter_pos shr_1 n mrs))
  = Z.max 0 (Zdigits2 (shr_m mrs) - Z.pos n).
Proof.
  induction n as [n IH|n IH|]; intros mrs; cbn [SpecFloat.iter_pos].
  - rewrite !IH, shr_1_digits. lia.
  - rewrite !IH. lia.
  - apply shr_1_digits.
Qed.

(** What [shr_fexp] leaves: the exponent it chooses, and no more digits
    above it than there were. *)
Lemma shr_fexp_bounds m e l mrs e' :
  shr_fexp PyFloat.prec PyFloat.emax m e l = (mrs, e') ->
  e' = Z.max e (Z.max (Zdigits2 m + e - 53) (-1074))
  /\ Zdigits2 (shr_m mrs) + e' <= Z.max e' (Zdigits2 m + e).
Proof.
  unfold shr_fexp, shr, fexp, emin, PyFloat.prec, PyFloat.emax.
  assert (shr_m (shr_record_of_loc m l) = m) as Hm by (by destruct l as [|[]]).
  destruct (Z.max _ _ - e) as [|n|n] eqn:E; intros [= <- <-].
  - rewrite Hm. lia.
  - rewrite iter_shr_1_digits, Hm. lia.
  - rewrite Hm. lia.
Qed.

Lemma round_nearest_even_digits m l :
  Zdigits2 (round_nearest_even m l) <= Zdigits2 m + 1.
Proof.
  pose proof (Zdigits2_gt m) as Hm.
  assert (0 <= Zdigits2 m) as Hd by (by destruct m).
  assert (Zdigits2 (m + 1) <= Zdigits2 m + 1) as H1.
  { apply Zdigits2_le; [lia|]. rewrite Z.pow_add_r, Z.pow_1_r by lia. lia. }
  destruct l as [|[]]; simpl; [lia| |lia|done].
  destruct (Z.even m); [lia|done].
Qed.

(** A number with room below the largest exponent is not rounded to an
    infinity. *)
Lemma binary_round_aux_finite sx mx ex lx :
  Zdigits2 mx + ex <= 1023 -> ex <= 971 ->
  forall s, binary_round_aux PyFloat.prec PyFloat.emax sx mx ex lx <> S754_infinity s.
Proof.
  intros Hd He s. unfold binary_round_aux.
  destruct (shr_fexp _ _ mx ex lx) as [mrs' e'] eqn:E1.
  destruct (shr_fexp _ _ _ e' loc_Exact) as [mrs'' e''] eqn:E2.
  apply shr_fexp_bounds in E1 as [He' Hd'].
  apply shr_fexp_bounds in E2 as [He'' _].
  pose proof (round_nearest_even_digits (shr_m mrs') (loc_of_shr_record mrs')) as Hr.
  destruct (shr_m mrs''); [done| |done].
  destruct (Z.leb_spec e'' (PyFloat.emax - PyFloat.prec)) as [|Hgt]; [done|].
  unfold PyFloat.emax, PyFloat.prec in Hgt. lia.
Qed.

Lemma iter_xO_digits d p :
  Z.pos (digits2_pos (Pos.iter xO p d)) = Z.pos (digits2_pos p) + Z.pos d.
Proof.
  induction d as [|d IH] using Pos.peano_ind.
  - simpl. lia.
  - rewrite Pos.iter_succ. simpl. lia.
Qed.

Lemma of_Z_finite n :
  Z.abs n < 2 ^ 1023 -> exists value, PyFloat.of_Z n = Ok value.
Proof.
  intros Hn.
  assert (Zdigits2 n <= 1023) as Hd by (by apply Zdigits2_le).
  assert (forall sx p, Z.pos (digits2_pos p) <= 1023 ->
            forall s, binary_round PyFloat.prec PyFloat.emax sx p 0 <> S754_infinity s)
    as Hround.
  { intros sx p Hp s. unfold binary_round, shl_align.
    unfold fexp, emin, PyFloat.prec, PyFloat.emax.
    destruct (Z.max _ _ - 0) as [|k|k] eqn:E;
      apply binary_round_aux_finite; cbn [Zdigits2]; try lia.
    rewrite iter_xO_digits. lia. }
  unfold PyFloat.of_Z, binary_normalize.
  destruct n as [|p|p]; [by eexists|..].
  - pose proof (Hround false p Hd) as Hne.
    destruct (binary_round _ _ false p 0); try by eexists. by destruct (Hne s).
  - pose proof (Hround true p Hd) as Hne.
    destruct (binary_round _ _ true p 0); try by eexists. by destruct (Hne s).
Qed.

Lemma human_readable_loop_returns us : forall value,
  us <> [] -> List.last us EmptyString = List.last units EmptyString ->
  exists value' unit,
    In unit us
    /\ human_readable_loop value us = Some (format_2f value' +:+ " " +:+ unit).
Proof.
  induction us as [|unit rest IH]; intros value Hne Hlast; [done|].
  cbn [human_readable_loop].
  destruct (SFltb value thousand || String.eqb unit _) eqn:E.
  { exists value, unit. split; [by left|done]. }
  destruct rest as [|unit' rest'].
  { simpl in Hlast. by rewrite Hlast, String.eqb_refl, orb_true_r in E. }
  destruct (IH (SFdiv PyFloat.prec PyFloat.emax value thousand))
    as (value' & u & Hin & ->); [done|done|].
  exists value', u. split; [by right|done].
Qed.

(** X28.  For every size below 2^1023 in absolute value, so for the
    size of any file, [human_readable_size] returns, and what it
    returns is a number with two decimals, a space and one of the five
    units: [float] does not overflow, the loop always returns, and the
    last line of the function, which would print the bare integer, is
    never reached. *)
Theorem human_readable_size_returns size :
  Z.abs size < 2 ^ 1023 ->
  exists value unit,
    In unit units
    /\ human_readable_size size = Ok (format_2f value +:+ " " +:+ unit).
Proof.
  intros Hsize. unfold human_readable_size.
  destruct (of_Z_finite size Hsize) as [value ->].
  destruct (human_readable_loop_returns units value) as (value' & unit & Hin & ->);
    [done|done|].
  by exists value', unit.
Qed.

Lemma human_readable_size_returns_witness :
  exists value unit,
    In unit units
    /\ human_readable_size 999999 = Ok (format_2f value +:+ " " +:+ unit).
Proof.
  apply (human_readable_size_returns 999999). vm_compute. reflexivity.
Defined.
